(** * Helion health monitor: the derived-view engine and the snapshot fetcher

    A shallow embedding of the TypeScript sources

      - [frontend/health-ui/src/types.ts]        (module [Types]),
      - [frontend/health-ui/src/api/health.ts]   (module [Health]),
      - [frontend/health-ui/src/App.tsx], the plain dashboard (module [Basic]),
      - the card-based dashboard, the second [App] component (module [Rich]),

    over a model of the part of the ECMAScript runtime they call (module
    [JS]): strings as sequences of UTF-16 code units, numbers as IEEE 754
    binary64 values (Rocq's primitive floats), [Number], [Math.round],
    [Math.max], [toFixed], [toLocaleString], [slice], [replace], [trim]. *)

From Stdlib Require Import ZArith NArith QArith Qabs Qround List String Ascii Bool Lia.
From Stdlib Require Import Floats Sorted Permutation.
Import ListNotations.

#[local] Set Warnings "-inexact-float,-register-all".
Local Open Scope Z_scope.

(* ===================================================================== *)
(** * The ECMAScript runtime                                               *)
(* ===================================================================== *)

Module JS.

(** ** Strings: sequences of UTF-16 code units *)

Definition code_unit := N.
Definition jsstring := list code_unit.

(** A source literal is UTF-8 text; [utf16] re-encodes code points as code
    units (a surrogate pair above the basic plane). *)
Definition utf16 (cp : N) : jsstring :=
  if (cp <? 65536)%N then [cp]
  else let c := (cp - 65536)%N in
       [(55296 + N.shiftr c 10)%N; (56320 + N.land c 1023)%N].

Definition cont (b : N) : N := N.land b 63.

Fixpoint utf8_decode (bs : list N) : jsstring :=
  match bs with
  | [] => []
  | b :: rest =>
    if (b <? 128)%N then b :: utf8_decode rest
    else if (b <? 224)%N then
      match rest with
      | b1 :: rest1 =>
        utf16 (N.shiftl (N.land b 31) 6 + cont b1)%N ++ utf8_decode rest1
      | _ => [65533%N]
      end
    else if (b <? 240)%N then
      match rest with
      | b1 :: b2 :: rest2 =>
        utf16 (N.shiftl (N.land b 15) 12 + N.shiftl (cont b1) 6 + cont b2)%N
          ++ utf8_decode rest2
      | _ => [65533%N]
      end
    else
      match rest with
      | b1 :: b2 :: b3 :: rest3 =>
        utf16 (N.shiftl (N.land b 7) 18 + N.shiftl (cont b1) 12
               + N.shiftl (cont b2) 6 + cont b3)%N
          ++ utf8_decode rest3
      | _ => [65533%N]
      end
  end.

Definition js (s : string) : jsstring :=
  utf8_decode (map N_of_ascii (list_ascii_of_string s)).

Fixpoint jsstring_eqb (a b : jsstring) : bool :=
  match a, b with
  | [], [] => true
  | x :: a', y :: b' => N.eqb x y && jsstring_eqb a' b'
  | _, _ => false
  end.

(** [s.length] *)
Definition length (s : jsstring) : Z := Z.of_nat (List.length s).

(** Relative index resolution shared by [slice]: a negative index counts
    from the end, and the result is clamped to [0, len]. *)
Definition clamp_index (len i : Z) : Z :=
  if i <? 0 then Z.max (len + i) 0 else Z.min i len.

(** [String.prototype.slice(start, end)] and [Array.prototype.slice(start,
    end)], which resolve their indices alike. *)
Definition slice {A : Type} (s : list A) (start end_ : Z) : list A :=
  let len := Z.of_nat (List.length s) in
  let from := clamp_index len start in
  let to := clamp_index len end_ in
  firstn (Z.to_nat (Z.max (to - from) 0)) (skipn (Z.to_nat from) s).

(** [String.prototype.startsWith(prefix)] *)
Fixpoint startsWith (s prefix : jsstring) {struct prefix} : bool :=
  match prefix, s with
  | [], _ => true
  | p :: prefix', c :: s' => N.eqb c p && startsWith s' prefix'
  | _ :: _, [] => false
  end.

(** [String.prototype.endsWith(suffix)] *)
Definition endsWith (s suffix : jsstring) : bool :=
  startsWith (rev s) (rev suffix).

(** [String.prototype.replace(pattern, replacement)] with a string pattern:
    the first occurrence only ([replacement] holds no [$] pattern in the
    callers). *)
Fixpoint replace (s pattern replacement : jsstring) : jsstring :=
  if startsWith s pattern then replacement ++ skipn (List.length pattern) s
  else match s with
       | [] => []
       | c :: s' => c :: replace s' pattern replacement
       end.

(** [s.replace(/\/$/, '')]: one slash removed at the very end of the input. *)
Definition strip_trailing_slash (s : jsstring) : jsstring :=
  match rev s with
  | c :: r => if N.eqb c 47 then rev r else s
  | [] => s
  end.

(** White space and line terminators of the language ([StrWhiteSpaceChar]). *)
Definition is_white_space (c : code_unit) : bool :=
  existsb (N.eqb c)
    [9; 10; 11; 12; 13; 32; 160; 5760; 8192; 8193; 8194; 8195; 8196; 8197;
     8198; 8199; 8200; 8201; 8202; 8232; 8233; 8239; 8287; 12288; 65279]%N.

Fixpoint trimStart (s : jsstring) : jsstring :=
  match s with
  | c :: s' => if is_white_space c then trimStart s' else s
  | [] => []
  end.

Definition trimEnd (s : jsstring) : jsstring := rev (trimStart (rev s)).

(** [String.prototype.trim()] *)
Definition trim (s : jsstring) : jsstring := trimEnd (trimStart s).

(** ** Optional values *)

(** A property typed [T | null | undefined] (an optional property that the
    wire may also carry as [null]). *)
Inductive nullable (A : Type) : Type :=
| undefined : nullable A
| null : nullable A
| value : A -> nullable A.
Arguments undefined {A}.
Arguments null {A}.
Arguments value {A} _.

(** ** Numbers: IEEE 754 binary64 *)

(** Conversion of an integer to the nearest double (ties to even). *)
Definition of_Z (n : Z) : float := SF2Prim (binary_normalize prec emax n 0 false).

(** [Number.isNaN] and [Number.isFinite] on a value of type Number. *)
Definition isNaN (x : float) : bool :=
  match Prim2SF x with S754_nan => true | _ => false end.

Definition isFinite (x : float) : bool :=
  match Prim2SF x with
  | S754_zero _ | S754_finite _ _ _ => true
  | S754_infinity _ | S754_nan => false
  end.

(** The sign bit, also of a zero. *)
Definition signbit (x : float) : bool :=
  match Prim2SF x with
  | S754_zero s | S754_infinity s | S754_finite s _ _ => s
  | S754_nan => false
  end.

(** Powers of two and ten as exact rationals. *)
Definition pow2 (e : Z) : Q :=
  if 0 <=? e then inject_Z (2 ^ e) else 1 # Z.to_pos (2 ^ (- e)).

Definition pow10 (p : Z) : Q :=
  if 0 <=? p then inject_Z (10 ^ p) else 1 # Z.to_pos (10 ^ (- p)).

(** The mathematical value of a finite double (0 for the others). *)
Definition real (x : float) : Q :=
  match Prim2SF x with
  | S754_finite s m e => (inject_Z (cond_Zopp s (Zpos m)) * pow2 e)%Q
  | _ => 0%Q
  end.

(** [Math.round]: the closest integral double, a tie going towards
    positive infinity; the sign of a zero result is the sign of the
    argument. *)
Definition Math_round (x : float) : float :=
  match Prim2SF x with
  | S754_finite s m e =>
    if 0 <=? e then x
    else
      let n := (cond_Zopp s (Zpos m) + 2 ^ (- e - 1)) / 2 ^ (- e) in
      if n =? 0 then (if s then neg_zero else zero) else of_Z n
  | _ => x
  end.

(** [Math.max] of two Numbers. *)
Definition Math_max (a b : float) : float :=
  if isNaN a || isNaN b then nan
  else if (a <? b)%float then b
  else if (b <? a)%float then a
  else if signbit a then b else a.

(** Decimal digits of a natural number, most significant first. *)
Definition digit (d : Z) : code_unit := (48 + Z.to_N d)%N.

Fixpoint digits_aux (fuel : nat) (n : Z) (acc : jsstring) : jsstring :=
  match fuel with
  | O => acc
  | S fuel' =>
    let acc' := digit (n mod 10) :: acc in
    if n <? 10 then acc' else digits_aux fuel' (n / 10) acc'
  end.

Definition decimal (n : Z) : jsstring :=
  let n := Z.abs n in
  digits_aux (S (Z.to_nat (Z.log2 n))) n [].

(** The decimal representation of an integer, as [ToString] prints an
    integral Number below 10^21. *)
Definition Z_toString (n : Z) : jsstring :=
  if n <? 0 then js "-" ++ decimal n else decimal n.

Definition zeros (n : nat) : jsstring := repeat 48%N n.

(** *** [Number::toString] (radix 10) *)

(** The integer [n0] with [10^(n0-1) <= v < 10^n0], searched upwards from a
    lower estimate. *)
Fixpoint magnitude_from (fuel : nat) (v : Q) (n : Z) : Z :=
  match fuel with
  | O => n
  | S fuel' => if Qle_bool (pow10 n) v then magnitude_from fuel' v (n + 1) else n
  end.

Definition magnitude (m : positive) (e : Z) : Z :=
  let b := Z.log2 (Zpos m) + e in
  magnitude_from 8 (inject_Z (Zpos m) * pow2 e)%Q (b * 30102 / 100000 - 2).

Definition Qlt_bool (a b : Q) : bool := negb (Qle_bool b a).

(** Does the decimal [c] convert back to the double [m * 2^e]?  The doubles
    around it are half a unit in the last place away, a quarter below a
    power of two; a tie converts to the even mantissa. *)
Definition reads_back (m : positive) (e : Z) (c : Q) : bool :=
  let v := (inject_Z (Zpos m) * pow2 e)%Q in
  let below :=
    if (Zpos m =? 2 ^ 52) && (-1074 <? e) then pow2 (e - 2) else pow2 (e - 1) in
  let lo := (v - below)%Q in
  let hi := (v + pow2 (e - 1))%Q in
  if Z.even (Zpos m) then Qle_bool lo c && Qle_bool c hi
  else Qlt_bool lo c && Qlt_bool c hi.

(** The shortest digit string [s] (as an integer of [k] digits) and the
    exponent [n] with [s * 10^(n-k)] reading back as the double; of two
    candidates of the same length, the closest to the double. *)
Fixpoint shortest_from (fuel : nat) (m : positive) (e : Z) (n0 k : Z)
  : Z * Z * Z :=
  let v := (inject_Z (Zpos m) * pow2 e)%Q in
  let p := n0 - k in
  let s1 := Qfloor (v * pow10 (- p))%Q in
  let c1 := (inject_Z s1 * pow10 p)%Q in
  let c2 := (inject_Z (s1 + 1) * pow10 p)%Q in
  let up := if s1 + 1 =? 10 ^ k then (10 ^ (k - 1), k, n0 + 1) else (s1 + 1, k, n0) in
  let down := (s1, k, n0) in
  match fuel with
  | O => down
  | S fuel' =>
    match reads_back m e c1, reads_back m e c2 with
    | true, true => if Qle_bool (v - c1)%Q (c2 - v)%Q then down else up
    | true, false => down
    | false, true => up
    | false, false => shortest_from fuel' m e n0 (k + 1)
    end
  end.

Definition shortest (m : positive) (e : Z) : Z * Z * Z :=
  shortest_from 17 m e (magnitude m e) 1.

Definition exponent_part (n : Z) : jsstring :=
  js "e" ++ (if n - 1 <? 0 then js "-" else js "+") ++ decimal (n - 1).

Definition toString_finite (m : positive) (e : Z) : jsstring :=
  let '(s, k, n) := shortest m e in
  let ds := decimal s in
  if (k <=? n) && (n <=? 21) then ds ++ zeros (Z.to_nat (n - k))
  else if (0 <? n) && (n <=? 21) then
    firstn (Z.to_nat n) ds ++ js "." ++ skipn (Z.to_nat n) ds
  else if (-6 <? n) && (n <=? 0) then
    js "0." ++ zeros (Z.to_nat (- n)) ++ ds
  else if k =? 1 then ds ++ exponent_part n
  else firstn 1 ds ++ js "." ++ skipn 1 ds ++ exponent_part n.

Definition toString (x : float) : jsstring :=
  match Prim2SF x with
  | S754_nan => js "NaN"
  | S754_zero _ => js "0"
  | S754_infinity s => if s then js "-Infinity" else js "Infinity"
  | S754_finite s m e =>
    if s then js "-" ++ toString_finite m e else toString_finite m e
  end.

(** *** [Number.prototype.toFixed(fractionDigits)]

    for [0 <= fractionDigits <= 100]; above, the runtime raises a
    [RangeError], which no caller in the dashboard can reach. *)
Definition toFixed (x : float) (f : nat) : jsstring :=
  if negb (isFinite x) then toString x
  else
    let r := real x in
    let s := if Qlt_bool r 0%Q then js "-" else [] in
    let r := Qabs r in
    if Qle_bool (pow10 21) r then s ++ toString (abs x)
    else
      let n := Qfloor (r * pow10 (Z.of_nat f) + (1 # 2))%Q in
      let m := if n =? 0 then js "0" else decimal n in
      let m :=
        if (f =? 0)%nat then m
        else
          let k := List.length m in
          let m := if (k <=? f)%nat then zeros (f + 1 - k) ++ m else m in
          let k := List.length m in
          firstn (k - f) m ++ js "." ++ skipn (k - f) m in
      s ++ m.

(** *** [Number.prototype.toLocaleString()]

    with the host's default locale taken to be [en-US] and the default
    options of [Intl.NumberFormat]: at most three fraction digits, a half
    rounded away from zero, groups of three integer digits separated by a
    comma.  The digits are those of the mathematical value. *)
Fixpoint group_rev (l : jsstring) : jsstring :=
  match l with
  | a :: b :: c :: ((_ :: _) as rest) => a :: b :: c :: 44%N :: group_rev rest
  | _ => l
  end.

Definition group3 (ds : jsstring) : jsstring := rev (group_rev (rev ds)).

Fixpoint strip_zeros_rev (l : jsstring) : jsstring :=
  match l with
  | c :: l' => if N.eqb c 48 then strip_zeros_rev l' else l
  | [] => []
  end.

Definition toLocaleString (x : float) : jsstring :=
  match Prim2SF x with
  | S754_nan => js "NaN"
  | S754_infinity s => if s then js "-∞" else js "∞"
  | _ =>
    let n := Qfloor (Qabs (real x) * pow10 3 + (1 # 2))%Q in
    let ds := decimal (n mod 1000) in
    let frac := rev (strip_zeros_rev (rev (zeros (3 - List.length ds) ++ ds))) in
    (if signbit x then js "-" else [])
      ++ group3 (decimal (n / 1000))
      ++ (match frac with [] => [] | _ => js "." ++ frac end)
  end.

(** *** [Number(string)]: the [StringToNumber] conversion *)

Definition is_digit (c : code_unit) : bool := (48 <=? c)%N && (c <=? 57)%N.

(** Value of a digit in the given radix, if it is one. *)
Definition digit_value (radix : Z) (c : code_unit) : option Z :=
  let v :=
    if is_digit c then Z.of_N c - 48
    else if (97 <=? c)%N && (c <=? 102)%N then Z.of_N c - 87
    else if (65 <=? c)%N && (c <=? 70)%N then Z.of_N c - 55
    else radix in
  if v <? radix then Some v else None.

(** The digits of a whole string, read in [radix]. *)
Fixpoint read_digits (radix : Z) (acc : Z) (s : jsstring) : option Z :=
  match s with
  | [] => Some acc
  | c :: s' =>
    match digit_value radix c with
    | Some v => read_digits radix (radix * acc + v) s'
    | None => None
    end
  end.

(** The longest prefix of decimal digits, and what follows it. *)
Fixpoint span_digits (s : jsstring) : jsstring * jsstring :=
  match s with
  | c :: s' =>
    if is_digit c then let (ds, r) := span_digits s' in (c :: ds, r)
    else ([], s)
  | [] => ([], [])
  end.

Definition digits_value (ds : jsstring) : Z :=
  fold_left (fun acc c => 10 * acc + (Z.of_N c - 48)) ds 0.

(** The double nearest to [m * 10^e] (ties to even), for [m > 0] written
    with [d] digits.  Far outside the range of the doubles the result is
    known without computing the power. *)
Definition of_decimal (neg : bool) (m : Z) (d : Z) (e : Z) : float :=
  if m =? 0 then (if neg then neg_zero else zero)
  else if 400 <? e then (if neg then neg_infinity else infinity)
  else if e + d <? -400 then (if neg then neg_zero else zero)
  else if 0 <=? e then
    SF2Prim (binary_normalize prec emax (cond_Zopp neg (m * 10 ^ e)) 0 neg)
  else
    let den := 10 ^ (- e) in
    let sh := 1100 + Z.log2 den in
    let q := (m * 2 ^ sh) / den in
    let r := (m * 2 ^ sh) mod den in
    let loc := if r =? 0 then loc_Exact else loc_Inexact (2 * r ?= den) in
    SF2Prim (binary_round_aux prec emax neg q (- sh) loc).

(** [ExponentPart_opt] followed by the end of the input. *)
Definition read_exponent (s : jsstring) : option Z :=
  match s with
  | [] => Some 0
  | c :: s' =>
    if N.eqb c 101 || N.eqb c 69 then
      let '(neg, s'') :=
        match s' with
        | 43%N :: t => (false, t)
        | 45%N :: t => (true, t)
        | _ => (false, s')
        end in
      match span_digits s'' with
      | ((_ :: _) as ds, []) => Some (cond_Zopp neg (digits_value ds))
      | _ => None
      end
    else None
  end.

(** [StrUnsignedDecimalLiteral] *)
Definition read_unsigned_decimal (neg : bool) (s : jsstring) : float :=
  if jsstring_eqb s (js "Infinity") then (if neg then neg_infinity else infinity)
  else
    let (ip, r1) := span_digits s in
    let '(fp, r2) :=
      match r1 with
      | 46%N :: t => span_digits t
      | _ => ([], r1)
      end in
    match ip ++ fp, read_exponent r2 with
    | (_ :: _) as ds, Some e =>
      of_decimal neg (digits_value ds) (Z.of_nat (List.length ds))
                 (e - Z.of_nat (List.length fp))
    | _, _ => nan
    end.

Definition read_radix (radix : Z) (s : jsstring) : float :=
  match s with
  | [] => nan
  | _ => match read_digits radix 0 s with
         | Some n => of_Z n
         | None => nan
         end
  end.

(** [StrNumericLiteral] *)
Definition read_numeric (s : jsstring) : float :=
  match s with
  | 48%N :: c :: t =>
    if N.eqb c 120 || N.eqb c 88 then read_radix 16 t
    else if N.eqb c 111 || N.eqb c 79 then read_radix 8 t
    else if N.eqb c 98 || N.eqb c 66 then read_radix 2 t
    else read_unsigned_decimal false s
  | 43%N :: t => read_unsigned_decimal false t
  | 45%N :: t => read_unsigned_decimal true t
  | _ => read_unsigned_decimal false s
  end.

(** [Number(s)] for a string [s]: white space is trimmed, the empty string
    is 0, and what is not a numeric literal is NaN. *)
Definition Number_of_string (s : jsstring) : float :=
  match trim s with
  | [] => zero
  | t => read_numeric t
  end.

(** [Number.isFinite(v)] and [Number(v)] for an optional Number. *)
Definition Number_isFinite (v : nullable float) : bool :=
  match v with
  | value x => isFinite x
  | _ => false
  end.

Definition Number_of (v : nullable float) : float :=
  match v with
  | value x => x
  | null => zero
  | undefined => nan
  end.

(** ** Arrays *)

(** [Array.from({ length: n }, (_, idx) => f idx)] *)
Definition Array_from {A : Type} (n : Z) (f : Z -> A) : list A :=
  map (fun i => f (Z.of_nat i)) (seq 0 (Z.to_nat n)).

(** [Array.prototype.sort(comparefn)]: the sort is stable, and an element
    [x] goes after [y] when [comparefn(x, y) > 0]. *)
Fixpoint sort_insert {A : Type} (cmp : A -> A -> Z) (x : A) (l : list A) : list A :=
  match l with
  | [] => [x]
  | y :: l' => if 0 <? cmp x y then y :: sort_insert cmp x l' else x :: l
  end.

Definition Array_sort {A : Type} (cmp : A -> A -> Z) (l : list A) : list A :=
  fold_right (sort_insert cmp) [] l.

(** ** Objects used as records *)

(** A [Record<string, V>] as the list of its own properties in the order
    of enumeration, which is what [Object.entries] returns. *)
Definition Record_ (V : Type) := list (jsstring * V).

Definition Object_entries {V : Type} (o : Record_ V) : list (jsstring * V) := o.

(** ** The [URL] class *)

(** The fields of a parsed URL that the dashboard reads. *)
Record URL := { protocol : jsstring; host : jsstring; pathname : jsstring }.

(** ** Promises *)

Record Error := { message : jsstring }.

(** What awaiting a promise yields: its value, or the exception it was
    rejected with. *)
Inductive outcome (A : Type) : Type :=
| fulfilled : A -> outcome A
| rejected : Error -> outcome A.
Arguments fulfilled {A} _.
Arguments rejected {A} _.

(** ** The render tree *)

(** A property of an element: its name and its value. *)
Definition prop (name : string) (v : jsstring) : string * jsstring := (name, v).

Inductive ReactNode : Type :=
| RNull : ReactNode
| RText : jsstring -> ReactNode
| RFragment : list ReactNode -> ReactNode
| RElement : string -> list (string * jsstring) -> list ReactNode -> ReactNode.

(** ** Padding *)

(** [String.prototype.padStart(targetLength, padString)] *)
Definition padStart (s : jsstring) (targetLength : Z) (padString : jsstring) : jsstring :=
  let len := length s in
  if (targetLength <=? len) || (match padString with [] => true | _ => false end)
  then s
  else
    let fillLen := Z.to_nat (targetLength - len) in
    firstn fillLen (List.concat (repeat padString fillLen)) ++ s.

(** ** Dates *)

(** The time value of a [Date]: milliseconds since the epoch, [None] for an
    invalid date (the time value NaN). *)
Definition Date := option Z.

(** A finite double cut to an integer, towards zero. *)
Definition truncate (x : float) : Z :=
  match Prim2SF x with
  | S754_finite s m e =>
    if 0 <=? e then cond_Zopp s (Zpos m * 2 ^ e)
    else cond_Zopp s (Zpos m / 2 ^ (- e))
  | _ => 0
  end.

(** [new Date(value)] for a Number: the time value is clipped. *)
Definition Date_new (v : float) : Date :=
  if isFinite v then
    let t := truncate v in
    if Z.abs t <=? 8640000000000000 then Some t else None
  else None.

Definition getUTCHours (d : Date) : option Z :=
  option_map (fun t => (t / 3600000) mod 24) d.

Definition getUTCMinutes (d : Date) : option Z :=
  option_map (fun t => (t / 60000) mod 60) d.

Definition getUTCSeconds (d : Date) : option Z :=
  option_map (fun t => (t / 1000) mod 60) d.

(** [String(n)] for the Number that a getter of a date returns: an integer,
    or NaN on an invalid date. *)
Definition String_of (n : option Z) : jsstring :=
  match n with
  | Some z => Z_toString z
  | None => js "NaN"
  end.

(** ** The query hook *)

(** What a query was rejected with: an [Error], or a value of another kind. *)
Inductive thrown :=
| ThrownError : Error -> thrown
| ThrownOther : thrown.

(** What [useQuery] exposes to the component. *)
Record QueryResult (T : Type) := {
  data : option T;
  isLoading : bool;
  isFetching : bool;
  isError : bool;
  error : option thrown
}.
Arguments data {T} _.
Arguments isLoading {T} _.
Arguments isFetching {T} _.
Arguments isError {T} _.
Arguments error {T} _.

End JS.


(* ===================================================================== *)
(** * [types.ts]                                                           *)
(* ===================================================================== *)

Module Types.
Import JS.

Inductive PeerState := offline | unreachable | joining | online.

(** The string a [PeerState] is on the wire and in a class name. *)
Definition PeerState_string (s : PeerState) : jsstring :=
  match s with
  | offline => js "offline"
  | unreachable => js "unreachable"
  | joining => js "joining"
  | online => js "online"
  end.

Inductive ModelState := healthy | broken.

Record ServerInfo := {
  public_name : nullable jsstring;
  version : nullable jsstring;
  throughput : nullable float;
  inference_rps : nullable float;
  forward_rps : nullable float;
  network_rps : nullable float;
  torch_dtype : nullable jsstring;
  quant_type : nullable jsstring;
  cache_tokens_left : nullable float;
  using_relay : nullable bool
}.

Record SpanInfo := {
  start : Z;
  end_ : Z;
  length : Z;
  server_info : ServerInfo
}.

Record AdapterInfo := { name : jsstring; short_name : jsstring }.

Record ServerRow := {
  short_peer_id : jsstring;
  peer_id : jsstring;
  show_public_name : bool;
  state : PeerState;
  span : SpanInfo;
  adapters : list AdapterInfo;
  pings_to_me : Record_ float;
  cache_tokens_left_per_block : nullable float
}.

Record ModelReport := {
  model_name : jsstring;
  model_short_name : jsstring;
  model_state : ModelState;
  server_rows : list ServerRow;
  repository : jsstring;
  dht_prefix : jsstring;
  num_blocks : Z;
  official : bool;
  limited : bool
}.

Record ReachabilityIssue := { issue_peer_id : jsstring; err : jsstring }.

(** [HealthState], with the type of [last_updated] left open: a raw wire
    value in the payload, a Number of milliseconds once normalized. *)
Record HealthState_ (T : Type) := {
  bootstrap_states : list PeerState;
  top_contributors : Record_ Z;
  model_reports : list ModelReport;
  reachability_issues : list ReachabilityIssue;
  last_updated : T;
  update_period : float;
  update_duration : float
}.
Arguments bootstrap_states {T} _.
Arguments top_contributors {T} _.
Arguments model_reports {T} _.
Arguments reachability_issues {T} _.
Arguments last_updated {T} _.
Arguments update_period {T} _.
Arguments update_duration {T} _.

Definition HealthState := HealthState_ float.

End Types.

(* ===================================================================== *)
(** * [api/health.ts]                                                      *)
(* ===================================================================== *)

Module Health.
Import JS Types.

(** What the JSON payload may carry in the place of [last_updated]. *)
Inductive wire :=
| WAbsent : wire
| WNull : wire
| WBoolean : bool -> wire
| WNumber : float -> wire
| WString : jsstring -> wire
| WObject : wire.

(** A [Response]: its status, and what awaiting [text()] and [json()]
    yields. *)
Record Response := {
  status : Z;
  text : outcome jsstring;
  json : outcome (HealthState_ wire)
}.

(** [response.ok] *)
Definition ok (response : Response) : bool :=
  (200 <=? status response) && (status response <=? 299).

Definition safeReadText (response : Response) : option jsstring :=
  match text response with
  | fulfilled t => Some t
  | rejected _ => None
  end.

(** [typeof timestamp === 'string' ? Number(timestamp) : timestamp] followed
    by [Number.isFinite]: only a Number can be finite. *)
Definition normalizeTimestamp (timestamp : wire) (now : float) : float :=
  let value :=
    match timestamp with
    | WString s => WNumber (Number_of_string s)
    | _ => timestamp
    end in
  match value with
  | WNumber v => if isFinite v then (v * 1000)%float else now
  | _ => now
  end.

(** [fetchHealthState], given what awaiting [fetch] yields and the instant
    [Date.now()] reads. *)
Definition fetchHealthState (fetched : outcome Response) (now : float)
  : outcome HealthState :=
  match fetched with
  | rejected e => rejected e
  | fulfilled response =>
    if negb (ok response) then
      let message := safeReadText response in
      rejected {| message :=
        match message with
        | Some ((_ :: _) as m) => m
        | _ => js "Request failed with status " ++ Z_toString (status response)
        end |}
    else
      match json response with
      | rejected e => rejected e
      | fulfilled payload =>
        fulfilled {|
          bootstrap_states := bootstrap_states payload;
          top_contributors := top_contributors payload;
          model_reports := model_reports payload;
          reachability_issues := reachability_issues payload;
          last_updated := normalizeTimestamp (last_updated payload) now;
          update_period := update_period payload;
          update_duration := update_duration payload
        |}
      end
  end.

End Health.

(* ===================================================================== *)
(** * [App.tsx]: the plain dashboard                                       *)
(* ===================================================================== *)

Module Basic.
Import JS Types.

Definition STATE_CHARS (s : PeerState) : jsstring :=
  match s with
  | offline => js "_"
  | unreachable => js "✖"
  | joining => js "●"
  | online => js "●"
  end.

Definition MAX_CONTRIBUTORS : Z := 5.

(** The [refetchInterval] option of the query: [data] is the last
    successful snapshot, if there was one. *)
Definition refetchInterval (data : option HealthState) : float :=
  let seconds :=
    match data with
    | Some d => update_period d
    | None => 60%float
    end in
  Math_max (seconds * 1000)%float 30000%float.

Definition ContributorEntry : Type := jsstring * Z.

Definition getTopContributors (counter : Record_ Z) : list ContributorEntry :=
  slice (Array_sort (fun '(_, a) '(_, b) => b - a) (Object_entries counter))
        0 MAX_CONTRIBUTORS.

Definition truncateWithEllipsis (value : jsstring) (max : Z) : jsstring :=
  if JS.length value <=? max then value
  else slice value 0 (max - 1) ++ js "…".

Definition renderVersion (version : nullable jsstring) : jsstring :=
  match version with
  | value ((_ :: _) as v) => truncateWithEllipsis v 10
  | _ => js "< 2.0.0"
  end.

Definition renderThroughput (throughput : nullable float) : jsstring :=
  if negb (Number_isFinite throughput) then js "—"
  else toLocaleString (Math_round (Number_of throughput)) ++ js " tok/s".

Definition renderRps (v : nullable float) : jsstring :=
  if negb (Number_isFinite v) then []
  else toLocaleString (Math_round (Number_of v)).

Definition renderPrecision (info : ServerInfo) : jsstring :=
  let dtype :=
    match torch_dtype info with
    | value ((_ :: _) as t) => replace t (js "float") (js "f")
    | _ => []
    end in
  let quant :=
    match quant_type info with
    | value ((_ :: _) as q) =>
      if negb (jsstring_eqb q (js "none")) then js "(" ++ q ++ js ")" else []
    | _ => []
    end in
  trim (dtype ++ js " " ++ quant).

Definition renderAvailability (usingRelay : nullable bool) : jsstring :=
  match usingRelay with
  | undefined | null => []
  | value b => if b then js "Relay" else js "Direct"
  end.

Definition formatPing (rtt : float) : jsstring :=
  if (rtt <=? 5)%float then toFixed (rtt * 1000)%float 1 ++ js " ms"
  else js "> 5 s".

Definition renderCache (v : nullable float) : jsstring :=
  if negb (Number_isFinite v) then []
  else toLocaleString (Number_of v).

Definition renderAdapters (items : list AdapterInfo) : ReactNode :=
  match items with
  | [] => RNull
  | _ =>
    RFragment
      (map (fun '(index, adapter) =>
              RFragment
                ([RElement "a"
                    [prop "target" (js "_blank"); prop "rel" (js "noreferrer");
                     prop "href" (js "https://huggingface.co/" ++ name adapter)]
                    [RText (short_name adapter)]]
                 ++ (if index <? Z.of_nat (List.length items) - 1
                     then [RText (js " ")] else [])))
           (combine (map Z.of_nat (seq 0 (List.length items))) items))
  end.

(** The served-blocks cells of a [ServerRowItem]: one [td] per block of the
    model. *)
Definition ServerRowItem_cells (row : ServerRow) (numBlocks : Z) : list ReactNode :=
  Array_from numBlocks (fun idx =>
    let inRange := (start (span row) <=? idx) && (idx <? end_ (span row)) in
    RElement "td"
      [prop "key" (peer_id row ++ js "-" ++ Z_toString idx);
       prop "className"
         (js "bm" ++ (if inRange then js " " ++ PeerState_string (state row) else []))]
      [RText (if inRange then STATE_CHARS (state row) else [])]).

Section WithURL.
(** [new URL(value)]: the parse of the platform, [None] when it throws. *)
Variable URL_new : jsstring -> option URL.

Definition normalizeLink (v : jsstring) : jsstring * jsstring :=
  match URL_new v with
  | Some url => (v, host url ++ strip_trailing_slash (pathname url))
  | None => (v, v)
  end.

(** The pair returned by [normalizeLink] is [(href, label)]. *)
Definition formatContributorName (name : jsstring) : ReactNode :=
  if startsWith name (js "http://") || startsWith name (js "https://") then
    let '(href, label) := normalizeLink name in
    RElement "a"
      [prop "target" (js "_blank"); prop "rel" (js "noreferrer"); prop "href" href]
      [RText (truncateWithEllipsis label 20)]
  else RText (truncateWithEllipsis name 20).

Definition renderContributor (row : ServerRow) : ReactNode :=
  if negb (show_public_name row) then RNull
  else
    match public_name (server_info (span row)) with
    | value ((_ :: _) as publicName) => formatContributorName publicName
    | _ => RNull
    end.

End WithURL.

Definition formatUtcTime (date : Date) : jsstring :=
  padStart (String_of (getUTCHours date)) 2 (js "0") ++ js ":"
  ++ padStart (String_of (getUTCMinutes date)) 2 (js "0") ++ js ":"
  ++ padStart (String_of (getUTCSeconds date)) 2 (js "0").

(** What [App] puts on the page: the loading state, the blocking error
    state, or the dashboard: the header flag, the snapshot in use, the
    models and contributors listed, the staleness banner if any, and the
    date of the footer. *)
Inductive Screen :=
| LoadingScreen : Screen
| ErrorScreen : jsstring -> Screen
| DashboardScreen :
    bool -> HealthState -> list ModelReport -> list ContributorEntry ->
    option jsstring -> Date -> Screen.

(** [App], given what the query exposes and the instant read when the
    fallback snapshot is built. *)
Definition App (q : QueryResult HealthState) (now : float) : Screen :=
  let resolved :=
    match data q with
    | Some d => d
    | None =>
      {| bootstrap_states := []; top_contributors := []; model_reports := [];
         reachability_issues := []; last_updated := now;
         update_period := 60%float; update_duration := 0%float |}
    end in
  let nonOfficialModels := filter (fun model => negb (official model)) (model_reports resolved) in
  let topContributors := getTopContributors (top_contributors resolved) in
  let lastUpdated := Date_new (last_updated resolved) in
  let staleMessage :=
    if isError q then
      Some (match error q with
            | Some (ThrownError e) => message e
            | _ => js "Unknown error"
            end)
    else None in
  let dashboard :=
    DashboardScreen (isFetching q) resolved nonOfficialModels topContributors
      (match staleMessage with
       | Some ((_ :: _) as m) => Some m
       | _ => None
       end)
      lastUpdated in
  match data q with
  | None =>
    if isLoading q then LoadingScreen
    else if isError q then
      ErrorScreen (match error q with
                   | Some (ThrownError e) => message e
                   | _ => js "Failed to load the health state."
                   end)
    else dashboard
  | Some _ => dashboard
  end.

End Basic.

(* ===================================================================== *)
(** * The card-based dashboard (the second [App] component)                *)
(* ===================================================================== *)

Module Rich.
Import JS Types.

Definition STATE_CHARS (s : PeerState) : jsstring :=
  match s with
  | offline => js "_"
  | unreachable => js "✖"
  | joining => js "●"
  | online => js "●"
  end.

Definition MAX_CONTRIBUTORS : Z := 5.

(** The [refetchInterval] option of the query: [data] is the last
    successful snapshot, if there was one. *)
Definition refetchInterval (data : option HealthState) : float :=
  let seconds :=
    match data with
    | Some d => update_period d
    | None => 60%float
    end in
  Math_max (seconds * 1000)%float 30000%float.

Definition ContributorEntry : Type := jsstring * Z.

Definition getTopContributors (counter : Record_ Z) : list ContributorEntry :=
  slice (Array_sort (fun '(_, a) '(_, b) => b - a) (Object_entries counter))
        0 MAX_CONTRIBUTORS.

Definition truncateWithEllipsis (value : jsstring) (max : Z) : jsstring :=
  if JS.length value <=? max then value
  else slice value 0 (max - 1) ++ js "…".

Definition renderVersion (version : nullable jsstring) : jsstring :=
  match version with
  | value ((_ :: _) as v) => truncateWithEllipsis v 10
  | _ => js "< 2.0.0"
  end.

Definition renderThroughput (throughput : nullable float) : jsstring :=
  if negb (Number_isFinite throughput) then js "—"
  else toLocaleString (Math_round (Number_of throughput)) ++ js " tok/s".

Definition renderRps (v : nullable float) : jsstring :=
  if negb (Number_isFinite v) then []
  else toLocaleString (Math_round (Number_of v)).

Definition renderPrecision (info : ServerInfo) : jsstring :=
  let dtype :=
    match torch_dtype info with
    | value ((_ :: _) as t) => replace t (js "float") (js "f")
    | _ => []
    end in
  let quant :=
    match quant_type info with
    | value ((_ :: _) as q) =>
      if negb (jsstring_eqb q (js "none")) then js "(" ++ q ++ js ")" else []
    | _ => []
    end in
  trim (dtype ++ js " " ++ quant).

Definition renderAvailability (usingRelay : nullable bool) : jsstring :=
  match usingRelay with
  | undefined | null => []
  | value b => if b then js "Relay" else js "Direct"
  end.

Definition formatPing (rtt : float) : jsstring :=
  if (rtt <=? 5)%float then toFixed (rtt * 1000)%float 1 ++ js " ms"
  else js "> 5 s".

Definition muted (text : jsstring) : ReactNode :=
  RElement "span" [prop "className" (js "text-muted-foreground")] [RText text].

Definition renderCache (v : nullable float) : jsstring :=
  if negb (Number_isFinite v) then js "—"
  else toLocaleString (Number_of v).

Definition renderAdapters (items : list AdapterInfo) : ReactNode :=
  match items with
  | [] => muted (js "—")
  | _ =>
    RFragment
      (map (fun '(index, adapter) =>
              RFragment
                ([RElement "a"
                    [prop "target" (js "_blank"); prop "rel" (js "noreferrer");
                     prop "href" (js "https://huggingface.co/" ++ name adapter);
                     prop "className" (js "text-primary underline-offset-4 hover:underline")]
                    [RText (short_name adapter)]]
                 ++ (if index <? Z.of_nat (List.length items) - 1
                     then [RElement "span" [] [RText (js ", ")]] else [])))
           (combine (map Z.of_nat (seq 0 (List.length items))) items))
  end.

Section WithCn.
(** [cn] of [lib/utils], which merges class names; an argument is a class
    string or [false]. *)
Variable cn : list (option jsstring) -> jsstring.

Definition when (b : bool) (cls : jsstring) : option jsstring :=
  if b then Some cls else None.

Definition PeerState_eqb (a b : PeerState) : bool :=
  match a, b with
  | offline, offline | unreachable, unreachable
  | joining, joining | online, online => true
  | _, _ => false
  end.

(** The served-blocks cells of a [ServerRowItem]: one [TableCell] per block
    of the model. *)
Definition ServerRowItem_cells (row : ServerRow) (numBlocks : Z) : list ReactNode :=
  Array_from numBlocks (fun idx =>
    let inRange := (start (span row) <=? idx) && (idx <? end_ (span row)) in
    RElement "TableCell"
      [prop "key" (peer_id row ++ js "-" ++ Z_toString idx);
       prop "className"
        (cn [Some (js "p-1 text-center font-mono text-xs");
            Some (if inRange then
                    cn [Some (js "rounded-sm border border-transparent");
                        when (PeerState_eqb (state row) online)
                             (js "bg-emerald-500/15 text-emerald-600");
                        when (PeerState_eqb (state row) joining)
                             (js "bg-amber-500/15 text-amber-600");
                        when (PeerState_eqb (state row) unreachable)
                             (js "bg-rose-500/15 text-rose-600");
                        when (PeerState_eqb (state row) offline)
                             (js "bg-slate-500/10 text-slate-500")]
                  else js "text-muted-foreground")])]
      [RText (if inRange then STATE_CHARS (state row) else [])]).

End WithCn.

Section WithURL.
(** [new URL(value)]: the parse of the platform, [None] when it throws. *)
Variable URL_new : jsstring -> option URL.

Definition normalizeLink (v : jsstring) : jsstring * jsstring :=
  match URL_new v with
  | Some url => (v, host url ++ strip_trailing_slash (pathname url))
  | None => (v, v)
  end.

(** The pair returned by [normalizeLink] is [(href, label)]. *)
Definition formatContributorName (name : jsstring) : ReactNode :=
  if startsWith name (js "http://") || startsWith name (js "https://") then
    let '(href, label) := normalizeLink name in
    RElement "a"
      [prop "target" (js "_blank"); prop "rel" (js "noreferrer");
       prop "className" (js "text-primary underline-offset-4 hover:underline");
       prop "href" href]
      [RText (truncateWithEllipsis label 20)]
  else RText (truncateWithEllipsis name 20).

Definition renderContributor (row : ServerRow) : ReactNode :=
  if negb (show_public_name row) then muted (js "Hidden")
  else
    match public_name (server_info (span row)) with
    | value ((_ :: _) as publicName) => formatContributorName publicName
    | _ => muted (js "—")
    end.

End WithURL.

End Rich.

(* ===================================================================== *)
(** * Observations on the render tree                                      *)
(* ===================================================================== *)

Module View.
Import JS Types.

(** The text an element or a text node shows. *)
Definition text_of (n : ReactNode) : jsstring :=
  match n with
  | RText t => t
  | RElement _ _ [RText t] => t
  | _ => []
  end.

Fixpoint lookup_prop (k : string) (props : list (string * jsstring)) : option jsstring :=
  match props with
  | [] => None
  | (k', v) :: props' => if String.eqb k k' then Some v else lookup_prop k props'
  end.

(** The target of a link: the [href] of an anchor. *)
Definition target_of (n : ReactNode) : option jsstring :=
  match n with
  | RElement tag props _ => if String.eqb tag "a" then lookup_prop "href" props else None
  | _ => None
  end.

Definition class_of (n : ReactNode) : option jsstring :=
  match n with
  | RElement _ props _ => lookup_prop "className" props
  | _ => None
  end.

(** A served-blocks cell is covered when it shows a glyph. *)
Definition covered (cell : ReactNode) : bool :=
  match text_of cell with
  | [] => false
  | _ :: _ => true
  end.

(** A public name is present when the property holds a non-empty string. *)
Definition name_present (row : ServerRow) : option jsstring :=
  match public_name (server_info (span row)) with
  | value ((_ :: _) as n) => Some n
  | _ => None
  end.

(** The code unit of the horizontal ellipsis. *)
Definition ELLIPSIS : code_unit := 8230%N.

(** Is a number, padded to two places, its two decimal digits? *)
Definition two_digits_ok (n : Z) : bool :=
  jsstring_eqb (padStart (Z_toString n) 2 (js "0")) [digit (n / 10); digit (n mod 10)].

(** An optional string that counts as absent: undefined, null or empty. *)
Definition absent_string (v : nullable jsstring) : Prop :=
  v = undefined \/ v = null \/ v = value [].

(** The React key of a node. *)
Definition key_of (n : ReactNode) : option jsstring :=
  match n with
  | RElement _ props _ => lookup_prop "key" props
  | _ => None
  end.

(** A list whose keys never increase. *)
Definition descending {A : Type} (key : A -> Z) : list A -> Prop :=
  StronglySorted (fun a b => key b <= key a).

End View.

(* ===================================================================== *)
(** * Facts about the runtime                                              *)
(* ===================================================================== *)

Import JS Types Health View.

Section ListFacts.
Context {A : Type}.

Lemma firstn_min_length (n : nat) (l : list A) :
  firstn (Nat.min n (List.length l)) l = firstn n l.
Proof.
  destruct (Nat.le_ge_cases n (List.length l)) as [H | H].
  - now rewrite Nat.min_l.
  - rewrite Nat.min_r by assumption.
    now rewrite firstn_all, firstn_all2.
Qed.

Lemma slice_from_zero (l : list A) (n : Z) :
  0 <= n -> slice l 0 n = firstn (Z.to_nat n) l.
Proof.
  intros Hn. unfold slice, clamp_index.
  assert (H0 : (0 <? 0) = false) by reflexivity. rewrite H0.
  destruct (n <? 0) eqn:E; [apply Z.ltb_lt in E; lia |].
  rewrite (Z.min_l 0) by lia. simpl skipn.
  replace (Z.to_nat (Z.max (Z.min n (Z.of_nat (List.length l)) - 0) 0))
    with (Nat.min (Z.to_nat n) (List.length l)) by lia.
  apply firstn_min_length.
Qed.

Lemma filter_firstn_prefix (p : A -> bool) (n : nat) (l : list A) :
  filter p l = filter p (firstn n l) ++ filter p (skipn n l).
Proof. now rewrite <- filter_app, firstn_skipn. Qed.

Lemma StronglySorted_firstn (R : A -> A -> Prop) (n : nat) (l : list A) :
  StronglySorted R l -> StronglySorted R (firstn n l).
Proof.
  intros H. revert n. induction H as [| a l Hs IH Hall]; intros [| n]; simpl;
    try constructor.
  - apply IH.
  - rewrite Forall_forall in *. intros x Hx. apply Hall.
    rewrite <- (firstn_skipn n l). apply in_or_app. now left.
Qed.

Lemma StronglySorted_app_cross (R : A -> A -> Prop) (l1 l2 : list A) :
  StronglySorted R (l1 ++ l2) ->
  forall a b, In a l1 -> In b l2 -> R a b.
Proof.
  induction l1 as [| x l1 IH]; simpl; intros H a b Ha Hb; [contradiction |].
  inversion H as [| ? ? Hs Hall]; subst.
  destruct Ha as [<- | Ha].
  - rewrite Forall_forall in Hall. apply Hall, in_or_app. now right.
  - now apply IH.
Qed.

Lemma StronglySorted_weaken (R S : A -> A -> Prop) (l : list A) :
  (forall a b, R a b -> S a b) -> StronglySorted R l -> StronglySorted S l.
Proof.
  intros HRS H. induction H as [| a l Hs IH Hall]; constructor; auto.
  rewrite Forall_forall in *. intros x Hx. apply HRS, Hall, Hx.
Qed.

End ListFacts.

(** ** [Array.prototype.sort] with a comparator that subtracts keys *)

Section SortFacts.
Context {A : Type}.
Variable key : A -> Z.
Variable cmp : A -> A -> Z.
Hypothesis cmp_key : forall x y, cmp x y = key y - key x.

Lemma sort_insert_perm (x : A) (l : list A) :
  Permutation (sort_insert cmp x l) (x :: l).
Proof.
  induction l as [| y l IH]; simpl; [reflexivity |].
  destruct (0 <? cmp x y); [| reflexivity].
  rewrite IH. apply perm_swap.
Qed.

Lemma Array_sort_perm (l : list A) : Permutation (Array_sort cmp l) l.
Proof.
  induction l as [| x l IH]; simpl; [reflexivity |].
  rewrite sort_insert_perm. now constructor.
Qed.

Lemma sort_insert_descending (x : A) (l : list A) :
  descending key l -> descending key (sort_insert cmp x l).
Proof.
  unfold descending. intros H. induction H as [| y l Hs IH Hall]; simpl.
  - repeat constructor.
  - destruct (0 <? cmp x y) eqn:E.
    + apply Z.ltb_lt in E. rewrite cmp_key in E.
      constructor; [exact IH |].
      rewrite Forall_forall in *. intros z Hz.
      apply (Permutation_in _ (sort_insert_perm x l)) in Hz.
      destruct Hz as [<- | Hz]; [lia | now apply Hall].
    + apply Z.ltb_ge in E. rewrite cmp_key in E.
      constructor; [now constructor |].
      constructor; [lia |].
      rewrite Forall_forall in *. intros z Hz. specialize (Hall z Hz). lia.
Qed.

Lemma Array_sort_descending (l : list A) : descending key (Array_sort cmp l).
Proof.
  induction l as [| x l IH]; simpl; [constructor |].
  now apply sort_insert_descending.
Qed.

(** Stability: the entries of any one key keep the order of the input. *)
Lemma sort_insert_stable (c : Z) (x : A) (l : list A) :
  filter (fun a => key a =? c) (sort_insert cmp x l)
  = filter (fun a => key a =? c) (x :: l).
Proof.
  induction l as [| y l IH]; [reflexivity |].
  simpl sort_insert. destruct (0 <? cmp x y) eqn:E; [| reflexivity].
  apply Z.ltb_lt in E. rewrite cmp_key in E.
  simpl in *. rewrite IH.
  destruct (key x =? c) eqn:Ex; [| reflexivity].
  apply Z.eqb_eq in Ex.
  destruct (key y =? c) eqn:Ey; [apply Z.eqb_eq in Ey; lia | reflexivity].
Qed.

Lemma Array_sort_stable (c : Z) (l : list A) :
  filter (fun a => key a =? c) (Array_sort cmp l)
  = filter (fun a => key a =? c) l.
Proof.
  induction l as [| x l IH]; [reflexivity |].
  simpl Array_sort. rewrite sort_insert_stable. simpl. now rewrite IH.
Qed.

End SortFacts.

(** ** [truncateWithEllipsis] *)

Lemma truncate_short (v : jsstring) (max : Z) :
  JS.length v <= max -> Basic.truncateWithEllipsis v max = v.
Proof.
  intros H. unfold Basic.truncateWithEllipsis.
  destruct (JS.length v <=? max) eqn:E; [reflexivity |].
  apply Z.leb_gt in E. lia.
Qed.

Lemma truncate_long (v : jsstring) (max : Z) :
  1 <= max -> max < JS.length v ->
  Basic.truncateWithEllipsis v max = firstn (Z.to_nat (max - 1)) v ++ [ELLIPSIS].
Proof.
  intros Hmax H. unfold Basic.truncateWithEllipsis.
  destruct (JS.length v <=? max) eqn:E; [apply Z.leb_le in E; lia |].
  rewrite slice_from_zero by lia. reflexivity.
Qed.

Lemma truncate_length (v : jsstring) (max : Z) :
  1 <= max -> JS.length (Basic.truncateWithEllipsis v max) <= max.
Proof.
  intros Hmax. destruct (Z_le_gt_dec (JS.length v) max) as [H | H].
  - now rewrite truncate_short.
  - rewrite truncate_long by lia. unfold JS.length in *.
    rewrite length_app, length_firstn. simpl. lia.
Qed.

Lemma truncate_long_shape (v : jsstring) (max : Z) :
  1 <= max -> max < JS.length v ->
  JS.length (Basic.truncateWithEllipsis v max) = max
  /\ nth_error (Basic.truncateWithEllipsis v max) (Z.to_nat (max - 1)) = Some ELLIPSIS
  /\ firstn (Z.to_nat (max - 1)) (Basic.truncateWithEllipsis v max)
     = firstn (Z.to_nat (max - 1)) v.
Proof.
  intros Hmax H. rewrite truncate_long by lia. unfold JS.length in *.
  assert (Hlen : List.length (firstn (Z.to_nat (max - 1)) v) = Z.to_nat (max - 1)).
  { rewrite length_firstn. lia. }
  repeat split.
  - rewrite length_app, Hlen. simpl. lia.
  - rewrite nth_error_app2 by lia. rewrite Hlen, Nat.sub_diag. reflexivity.
  - rewrite firstn_app, Hlen, Nat.sub_diag. simpl. rewrite app_nil_r.
    now rewrite firstn_firstn, Nat.min_id.
Qed.

(* ===================================================================== *)
(** * Contributor ranking                                                  *)
(* ===================================================================== *)

Lemma getTopContributors_firstn (counter : Record_ Z) :
  Basic.getTopContributors counter
  = firstn 5 (Array_sort (fun '(_, a) '(_, b) => b - a) (Object_entries counter)).
Proof.
  unfold Basic.getTopContributors, Basic.MAX_CONTRIBUTORS.
  now rewrite slice_from_zero by lia.
Qed.

(** C2. The ranking has at most five entries; it is the head of a
    rearrangement of the input in which no dropped entry has a larger count
    than a kept one; counts never increase along it, and strictly decrease
    between entries whose counts differ; the entries of any one count are,
    in the order of the input's enumeration, the first such entries of the
    input.  Both variants compute it. *)
Theorem getTopContributors_ranking (counter : Record_ Z) :
  let ranked := Basic.getTopContributors counter in
  (List.length ranked <= 5)%nat
  /\ (exists dropped,
        Permutation (ranked ++ dropped) (Object_entries counter)
        /\ forall a b, In a ranked -> In b dropped -> snd b <= snd a)
  /\ StronglySorted (fun a b => snd b <= snd a) ranked
  /\ StronglySorted (fun a b => snd a <> snd b -> snd b < snd a) ranked
  /\ (forall c, exists rest,
        filter (fun e => snd e =? c) (Object_entries counter)
        = filter (fun e => snd e =? c) ranked ++ rest)
  /\ Rich.getTopContributors counter = ranked.
Proof.
  intros ranked. subst ranked. rewrite getTopContributors_firstn.
  set (cmp := fun '(_, a) '(_, b) => b - a).
  set (sorted := Array_sort cmp (Object_entries counter)).
  assert (Hcmp : forall x y : jsstring * Z, cmp x y = snd y - snd x)
    by (intros [] []; reflexivity).
  assert (Hsorted : descending snd sorted)
    by (apply Array_sort_descending; exact Hcmp).
  repeat split.
  - apply firstn_le_length.
  - exists (skipn 5 sorted). split.
    + rewrite firstn_skipn. apply Array_sort_perm.
    + apply (StronglySorted_app_cross (fun a b => snd b <= snd a)).
      rewrite firstn_skipn. exact Hsorted.
  - apply StronglySorted_firstn. exact Hsorted.
  - apply StronglySorted_firstn.
    apply (StronglySorted_weaken (fun a b => snd b <= snd a)); [| exact Hsorted].
    intros a b Hle Hne. lia.
  - intros c. exists (filter (fun e => snd e =? c) (skipn 5 sorted)).
    rewrite <- (Array_sort_stable snd cmp Hcmp c (Object_entries counter)).
    apply filter_firstn_prefix.
  - unfold Rich.getTopContributors, Rich.MAX_CONTRIBUTORS.
    now rewrite slice_from_zero by lia.
Qed.

(* ===================================================================== *)
(** * The two variants                                                     *)
(* ===================================================================== *)

(** C10. The scalar computations of the plain dashboard and of the
    card-based one return the same results on every input. *)
Theorem variants_agree :
  (forall counter, Basic.getTopContributors counter = Rich.getTopContributors counter)
  /\ (forall v max, Basic.truncateWithEllipsis v max = Rich.truncateWithEllipsis v max)
  /\ (forall URL_new v, Basic.normalizeLink URL_new v = Rich.normalizeLink URL_new v)
  /\ (forall version, Basic.renderVersion version = Rich.renderVersion version)
  /\ (forall throughput, Basic.renderThroughput throughput = Rich.renderThroughput throughput)
  /\ (forall v, Basic.renderRps v = Rich.renderRps v)
  /\ (forall info, Basic.renderPrecision info = Rich.renderPrecision info)
  /\ (forall usingRelay, Basic.renderAvailability usingRelay = Rich.renderAvailability usingRelay)
  /\ (forall rtt, Basic.formatPing rtt = Rich.formatPing rtt).
Proof. repeat split. Qed.

(* ===================================================================== *)
(** * Contributor visibility                                               *)
(* ===================================================================== *)

Lemma formatContributorName_not_sentinel URL_new (n t : jsstring) :
  Rich.formatContributorName URL_new n <> Rich.muted t
  /\ Basic.formatContributorName URL_new n <> RNull.
Proof.
  unfold Rich.formatContributorName, Basic.formatContributorName, Rich.muted.
  destruct (startsWith n (js "http://") || startsWith n (js "https://")).
  - destruct (Rich.normalizeLink URL_new n), (Basic.normalizeLink URL_new n).
    split; discriminate.
  - split; discriminate.
Qed.

(** C9. With the name hidden, or with no public name in the row, the cell
    shows no name: the card-based dashboard shows "Hidden" in the first case
    and a dash in the second, two different nodes, neither of which is the
    rendering of any name, and the plain dashboard shows nothing in both.
    What is shown is a name exactly when the row allows it and has one. *)
Theorem renderContributor_visibility URL_new (row : ServerRow) :
  (show_public_name row = false ->
     Rich.renderContributor URL_new row = Rich.muted (js "Hidden")
     /\ Basic.renderContributor URL_new row = RNull)
  /\ (show_public_name row = true -> name_present row = None ->
     Rich.renderContributor URL_new row = Rich.muted (js "—")
     /\ Basic.renderContributor URL_new row = RNull)
  /\ Rich.muted (js "Hidden") <> Rich.muted (js "—")
  /\ (forall n t, Rich.formatContributorName URL_new n <> Rich.muted t
               /\ Basic.formatContributorName URL_new n <> RNull)
  /\ (forall n, show_public_name row = true /\ name_present row = Some n <->
        Rich.renderContributor URL_new row = Rich.formatContributorName URL_new n
        /\ Basic.renderContributor URL_new row = Basic.formatContributorName URL_new n
        /\ public_name (server_info (span row)) = value n).
Proof.
  pose proof (formatContributorName_not_sentinel URL_new) as Hname.
  unfold Rich.renderContributor, Basic.renderContributor, name_present.
  split; [| split; [| split; [| split]]].
  - intros ->. split; reflexivity.
  - intros -> H.
    destruct (public_name (server_info (span row))) as [| | [| c n]];
      try discriminate; split; reflexivity.
  - discriminate.
  - exact Hname.
  - intros n. split.
    + intros [-> H].
      destruct (public_name (server_info (span row))) as [| | [| c m]];
        try discriminate.
      injection H as <-. repeat split.
    + intros (H1 & H2 & H3). rewrite H3 in *.
      destruct (show_public_name row); simpl in *.
      * destruct n as [| c n]; [| split; reflexivity].
        symmetry in H2. now apply (Hname [] []) in H2.
      * symmetry in H2. now apply (Hname n []) in H2.
Qed.

(* ===================================================================== *)
(** * Decimal numerals                                                     *)
(* ===================================================================== *)

Lemma digits_value_app (l1 l2 : jsstring) :
  digits_value (l1 ++ l2)
  = fold_left (fun acc c => 10 * acc + (Z.of_N c - 48)) l2 (digits_value l1).
Proof. unfold digits_value. apply fold_left_app. Qed.

Lemma digits_aux_acc (fuel : nat) (n : Z) (acc : jsstring) :
  digits_aux fuel n acc = digits_aux fuel n [] ++ acc.
Proof.
  revert n acc. induction fuel as [| fuel IH]; intros n acc; simpl; [reflexivity |].
  destruct (n <? 10); [reflexivity |].
  rewrite (IH _ (_ :: acc)), (IH _ [_]), <- app_assoc. reflexivity.
Qed.

Lemma digit_value_back (d : Z) : 0 <= d -> Z.of_N (digit d) - 48 = d.
Proof. intros H. unfold digit. lia. Qed.

Lemma digit_is_digit (d : Z) : 0 <= d < 10 -> is_digit (digit d) = true.
Proof.
  intros H. unfold is_digit, digit.
  apply andb_true_intro. split; apply N.leb_le; lia.
Qed.

Lemma digits_aux_value (fuel : nat) (n : Z) :
  0 <= n < 10 ^ Z.of_nat (S fuel) ->
  digits_value (digits_aux (S fuel) n []) = n
  /\ Forall (fun c => is_digit c = true) (digits_aux (S fuel) n [])
  /\ digits_aux (S fuel) n [] <> [].
Proof.
  revert n. induction fuel as [| fuel IH]; intros n Hn.
  - change (10 ^ Z.of_nat 1) with 10 in Hn.
    assert (E : (n <? 10) = true) by (apply Z.ltb_lt; lia).
    simpl. rewrite E, Z.mod_small by lia.
    unfold digits_value. simpl. rewrite digit_value_back by lia.
    repeat split; try lia; try discriminate.
    constructor; [apply digit_is_digit; lia | constructor].
  - remember (S fuel) as f eqn:Hf. simpl digits_aux.
    assert (Hmod : 0 <= n mod 10 < 10) by (apply Z.mod_pos_bound; lia).
    destruct (n <? 10) eqn:E.
    + apply Z.ltb_lt in E. rewrite Z.mod_small by lia.
      unfold digits_value. simpl. rewrite digit_value_back by lia.
      repeat split; try lia; try discriminate.
      constructor; [apply digit_is_digit; lia | constructor].
    + apply Z.ltb_ge in E. rewrite digits_aux_acc.
      destruct (IH (n / 10)) as (Hv & Hd & Hne).
      { split; [apply Z.div_pos; lia |].
        apply Z.div_lt_upper_bound; [lia |].
        rewrite (Nat2Z.inj_succ f), Z.pow_succ_r in Hn by lia. lia. }
      rewrite digits_value_app, Hv. cbn [fold_left]. rewrite digit_value_back by lia.
      repeat split.
      * pose proof (Z.div_mod n 10 ltac:(lia)). lia.
      * apply Forall_app. split; [exact Hd |].
        constructor; [apply digit_is_digit; lia | constructor].
      * intros H. apply app_eq_nil in H. destruct H as [_ H]. discriminate.
Qed.

(** The numeral of a natural number: non-empty, made of digits, and read
    back as the number. *)
Lemma decimal_spec (n : Z) :
  0 <= n ->
  digits_value (decimal n) = n
  /\ Forall (fun c => is_digit c = true) (decimal n)
  /\ decimal n <> [].
Proof.
  intros Hn. unfold decimal. rewrite Z.abs_eq by lia.
  apply digits_aux_value. split; [lia |].
  destruct (Z.eq_dec n 0) as [-> | Hne]; [simpl; lia |].
  rewrite Nat2Z.inj_succ, Z2Nat.id by apply Z.log2_nonneg.
  pose proof (Z.log2_spec n ltac:(lia)) as [_ Hlt].
  eapply Z.lt_le_trans; [exact Hlt |].
  apply Z.pow_le_mono_l. lia.
Qed.

Lemma Z_toString_nonneg (n : Z) : 0 <= n -> Z_toString n = decimal n.
Proof.
  intros H. unfold Z_toString.
  destruct (n <? 0) eqn:E; [apply Z.ltb_lt in E; lia | reflexivity].
Qed.

(* ===================================================================== *)
(** * The snapshot fetcher: failures                                       *)
(* ===================================================================== *)

(** C5 as stated fails on an empty body: the text of the body is obtained,
    and the message is the generic one all the same. *)
Lemma fetch_failure_empty_body :
  let response :=
    {| status := 500; text := fulfilled [];
       json := rejected {| message := js "Unexpected end of JSON input" |} |} in
  ok response = false
  /\ safeReadText response = Some []
  /\ fetchHealthState (fulfilled response) 1700000000000%float
     = rejected {| message := js "Request failed with status 500" |}
  /\ js "Request failed with status 500" <> [].
Proof. repeat split. discriminate. Qed.

(** C5, amended.  On a response whose status is outside 200..299 the fetch
    is rejected with an error whose message is the body text when that text
    is obtained and is not empty, and otherwise (the body cannot be read, or
    is empty) "Request failed with status " followed by the decimal numeral
    of the status; reading the body yields a text or nothing, never an
    exception. *)
Theorem fetch_failure_message (response : Response) (now : float) :
  ~ (200 <= status response <= 299) ->
  exists msg,
    fetchHealthState (fulfilled response) now = rejected {| message := msg |}
    /\ (forall body, text response = fulfilled body -> body <> [] ->
          safeReadText response = Some body /\ msg = body)
    /\ (text response = fulfilled [] \/ (exists e, text response = rejected e) ->
          msg = js "Request failed with status " ++ Z_toString (status response))
    /\ (forall e, text response = rejected e -> safeReadText response = None)
    /\ (0 <= status response ->
          Forall (fun c => is_digit c = true) (Z_toString (status response))
          /\ digits_value (Z_toString (status response)) = status response).
Proof.
  intros Hstatus.
  assert (Hok : ok response = false).
  { unfold ok. destruct (200 <=? status response) eqn:E1; [| reflexivity].
    destruct (status response <=? 299) eqn:E2; [| reflexivity].
    apply Z.leb_le in E1, E2. lia. }
  unfold fetchHealthState, safeReadText. rewrite Hok. simpl negb. cbv iota.
  destruct (text response) as [[| c body] | e] eqn:Htext;
    eexists; (split; [reflexivity |]).
  - split; [intros body H Hne; injection H as <-; contradiction |].
    split; [reflexivity |]. split; [discriminate |].
    intros H0. rewrite Z_toString_nonneg by exact H0.
    destruct (decimal_spec _ H0) as (Hv & Hd & _). now split.
  - split; [intros b H Hne; injection H as <-; now split |].
    split; [intros [H | [e H]]; discriminate |]. split; [discriminate |].
    intros H0. rewrite Z_toString_nonneg by exact H0.
    destruct (decimal_spec _ H0) as (Hv & Hd & _). now split.
  - split; [discriminate |]. split; [reflexivity |]. split; [reflexivity |].
    intros H0. rewrite Z_toString_nonneg by exact H0.
    destruct (decimal_spec _ H0) as (Hv & Hd & _). now split.
Qed.

Lemma fetch_failure_message_witness :
  exists msg,
    fetchHealthState
      (fulfilled {| status := 404; text := fulfilled (js "Not Found");
                    json := rejected {| message := [] |} |}) 0%float
    = rejected {| message := msg |} /\ msg = js "Not Found".
Proof.
  destruct (fetch_failure_message
              {| status := 404; text := fulfilled (js "Not Found");
                 json := rejected {| message := [] |} |} 0%float)
    as (msg & Hmsg & Hbody & _).
  - simpl. lia.
  - exists msg. split; [exact Hmsg |].
    apply (Hbody (js "Not Found")); [reflexivity | discriminate].
Defined.

(* ===================================================================== *)
(** * Contributor names                                                    *)
(* ===================================================================== *)

Lemma strip_trailing_slash_spec (p : jsstring) :
  strip_trailing_slash (p ++ js "/") = p
  /\ (endsWith p (js "/") = false -> strip_trailing_slash p = p).
Proof.
  unfold strip_trailing_slash, endsWith. split.
  - rewrite rev_app_distr. simpl. now rewrite rev_involutive.
  - destruct (rev p) as [| c r]; [reflexivity |]. simpl.
    destruct (c =? 47)%N; simpl; intros H; [discriminate H | reflexivity].
Qed.

(** C6 as stated fails on a name that is an absolute http URL without
    beginning with the lower-case prefix: whatever the platform's parse of
    it, the name is shown as plain text, with no link. *)
Lemma formatContributorName_upper_case_scheme :
  let name := js "HTTP://EXAMPLE.COM" in
  let url := {| protocol := js "http:"; host := js "example.com"; pathname := js "/" |} in
  let URL_new := fun v => if jsstring_eqb v name then Some url else None in
  URL_new name = Some url
  /\ Basic.formatContributorName URL_new name = RText name
  /\ Rich.formatContributorName URL_new name = RText name
  /\ target_of (Basic.formatContributorName URL_new name) = None
  /\ text_of (Basic.formatContributorName URL_new name)
     <> host url ++ strip_trailing_slash (pathname url).
Proof.
  repeat split. intros H. vm_compute in H. discriminate H.
Qed.

(** C6, amended.  A name that begins with [http://] or [https://] is
    rendered as a link whose target is the name itself and whose label is
    host + path, one trailing slash stripped, when the platform parses the
    name as a URL, and the name itself when the parse fails; any other name
    is rendered as plain text, without a link.  In all cases what is shown
    is cut to at most 20 code units: a label of at most 20 is shown
    unchanged, a longer one as its first 19 code units followed by the
    ellipsis, 20 in all. *)
Theorem formatContributorName_spec URL_new (name : jsstring) :
  let label :=
    match URL_new name with
    | Some url => host url ++ strip_trailing_slash (pathname url)
    | None => name
    end in
  (startsWith name (js "http://") || startsWith name (js "https://") = true ->
     Basic.formatContributorName URL_new name
     = RElement "a"
         [prop "target" (js "_blank"); prop "rel" (js "noreferrer"); prop "href" name]
         [RText (Basic.truncateWithEllipsis label 20)]
     /\ target_of (Basic.formatContributorName URL_new name) = Some name
     /\ target_of (Rich.formatContributorName URL_new name) = Some name
     /\ text_of (Basic.formatContributorName URL_new name)
        = Basic.truncateWithEllipsis label 20
     /\ text_of (Rich.formatContributorName URL_new name)
        = Basic.truncateWithEllipsis label 20)
  /\ (startsWith name (js "http://") || startsWith name (js "https://") = false ->
     Basic.formatContributorName URL_new name
     = RText (Basic.truncateWithEllipsis name 20)
     /\ Rich.formatContributorName URL_new name
        = RText (Basic.truncateWithEllipsis name 20))
  /\ (forall p, strip_trailing_slash (p ++ js "/") = p
             /\ (endsWith p (js "/") = false -> strip_trailing_slash p = p))
  /\ (forall v,
        JS.length (Basic.truncateWithEllipsis v 20) <= 20
        /\ (JS.length v <= 20 -> Basic.truncateWithEllipsis v 20 = v)
        /\ (20 < JS.length v ->
              JS.length (Basic.truncateWithEllipsis v 20) = 20
              /\ nth_error (Basic.truncateWithEllipsis v 20) 19 = Some ELLIPSIS
              /\ firstn 19 (Basic.truncateWithEllipsis v 20) = firstn 19 v)).
Proof.
  intros label. subst label.
  unfold Basic.formatContributorName, Rich.formatContributorName,
    Basic.normalizeLink, Rich.normalizeLink.
  split; [| split; [| split]].
  - intros ->. destruct (URL_new name) as [url |]; repeat split.
  - intros ->. split; reflexivity.
  - apply strip_trailing_slash_spec.
  - intros v. split; [apply truncate_length; lia |].
    split; [apply truncate_short |].
    intros H. apply (truncate_long_shape v 20); lia.
Qed.

(* ===================================================================== *)
(** * Block coverage                                                       *)
(* ===================================================================== *)

Section ArrayFromFacts.
Context {A : Type}.

Lemma Array_from_length (n : Z) (f : Z -> A) :
  List.length (Array_from n f) = Z.to_nat n.
Proof. unfold Array_from. now rewrite length_map, length_seq. Qed.

Lemma Array_from_nth (n : Z) (f : Z -> A) (i : Z) (d : A) :
  0 <= i < n -> nth (Z.to_nat i) (Array_from n f) d = f i.
Proof.
  intros Hi. unfold Array_from.
  rewrite (nth_indep _ d (f (Z.of_nat 0))) by (rewrite length_map, length_seq; lia).
  rewrite (map_nth (fun k => f (Z.of_nat k))), seq_nth by lia.
  simpl. now rewrite Z2Nat.id by lia.
Qed.

Lemma filter_map_length {B : Type} (p : B -> bool) (g : A -> B) (l : list A) :
  List.length (filter p (map g l)) = List.length (filter (fun x => p (g x)) l).
Proof.
  induction l as [| x l IH]; simpl; [reflexivity |].
  destruct (p (g x)); simpl; now rewrite IH.
Qed.

End ArrayFromFacts.

Lemma count_in_range (a b s len : nat) :
  List.length (filter (fun k => (a <=? k)%nat && (k <? b)%nat) (seq s len))
  = (Nat.min b (s + len) - Nat.max a s)%nat.
Proof.
  revert s. induction len as [| len IH]; intros s; cbn [seq filter].
  - simpl. lia.
  - destruct (Nat.leb_spec a s); destruct (Nat.ltb_spec s b);
      cbn [andb List.length]; rewrite IH; lia.
Qed.

(** The number of cells that a projection marks, when a cell is marked
    exactly on the indices of the span. *)
Lemma coverage_count (f : Z -> ReactNode) (a b n : Z) :
  0 <= a <= b -> b <= n ->
  (forall i, 0 <= i -> covered (f i) = (a <=? i) && (i <? b)) ->
  List.length (filter covered (Array_from n f)) = Z.to_nat (b - a).
Proof.
  intros Hab Hbn Hf. unfold Array_from.
  rewrite filter_map_length.
  rewrite (filter_ext _ (fun k => (Z.to_nat a <=? k)%nat && (k <? Z.to_nat b)%nat)).
  - rewrite count_in_range. lia.
  - intros k. rewrite Hf by lia. f_equal.
    + destruct (Z.leb_spec a (Z.of_nat k)), (Nat.leb_spec (Z.to_nat a) k);
        try reflexivity; lia.
    + destruct (Z.ltb_spec (Z.of_nat k) b), (Nat.ltb_spec k (Z.to_nat b));
        try reflexivity; lia.
Qed.

Lemma STATE_CHARS_glyphs :
  (forall s, List.length (Basic.STATE_CHARS s) = 1%nat)
  /\ (forall s, Rich.STATE_CHARS s = Basic.STATE_CHARS s)
  /\ Basic.STATE_CHARS online = Basic.STATE_CHARS joining
  /\ Basic.STATE_CHARS unreachable <> Basic.STATE_CHARS online
  /\ Basic.STATE_CHARS offline <> Basic.STATE_CHARS online
  /\ Basic.STATE_CHARS offline <> Basic.STATE_CHARS unreachable.
Proof.
  repeat split; try (intros []; reflexivity); intros H; vm_compute in H; discriminate H.
Qed.

Lemma in_range_iff (a b i : Z) : (a <=? i) && (i <? b) = true <-> a <= i < b.
Proof. rewrite andb_true_iff, Z.leb_le, Z.ltb_lt. tauto. Qed.

(** C1.  For a row whose span satisfies [0 <= start <= end <= numBlocks],
    both dashboards render one cell per block index of [0, numBlocks); the
    cell of index [i] is covered exactly when [start <= i < end], so that
    [end - start] cells are covered and every covered index is below
    [numBlocks]; a covered cell shows the one glyph of the row's state (the
    same for online and joining, which the class name tells apart, another
    for unreachable, a third for offline), an uncovered cell shows
    nothing. *)
Theorem block_coverage cn (row : ServerRow) (numBlocks : Z) :
  0 <= start (span row) <= end_ (span row) ->
  end_ (span row) <= numBlocks ->
  let basic := Basic.ServerRowItem_cells row numBlocks in
  let rich := Rich.ServerRowItem_cells cn row numBlocks in
  List.length basic = Z.to_nat numBlocks
  /\ List.length rich = Z.to_nat numBlocks
  /\ (forall i, 0 <= i < numBlocks ->
        let shown := if (start (span row) <=? i) && (i <? end_ (span row))
                     then Basic.STATE_CHARS (state row) else [] in
        (covered (nth (Z.to_nat i) basic RNull) = true
           <-> start (span row) <= i < end_ (span row))
        /\ (covered (nth (Z.to_nat i) rich RNull) = true
           <-> start (span row) <= i < end_ (span row))
        /\ text_of (nth (Z.to_nat i) basic RNull) = shown
        /\ text_of (nth (Z.to_nat i) rich RNull) = shown
        /\ class_of (nth (Z.to_nat i) basic RNull)
           = Some (if (start (span row) <=? i) && (i <? end_ (span row))
                   then js "bm " ++ PeerState_string (state row) else js "bm"))
  /\ List.length (filter covered basic) = Z.to_nat (end_ (span row) - start (span row))
  /\ List.length (filter covered rich) = Z.to_nat (end_ (span row) - start (span row))
  /\ (forall k, covered (nth k basic RNull) = true \/ covered (nth k rich RNull) = true ->
        0 <= Z.of_nat k < numBlocks)
  /\ (forall s, List.length (Basic.STATE_CHARS s) = 1%nat)
  /\ (forall s, Rich.STATE_CHARS s = Basic.STATE_CHARS s)
  /\ Basic.STATE_CHARS online = Basic.STATE_CHARS joining
  /\ Basic.STATE_CHARS unreachable <> Basic.STATE_CHARS online
  /\ Basic.STATE_CHARS offline <> Basic.STATE_CHARS online
  /\ Basic.STATE_CHARS offline <> Basic.STATE_CHARS unreachable.
Proof.
  intros Hspan Hend basic rich. subst basic rich.
  unfold Basic.ServerRowItem_cells, Rich.ServerRowItem_cells.
  assert (Hglyph : forall s, covered (RText (Basic.STATE_CHARS s)) = true)
    by (intros []; reflexivity).
  split; [apply Array_from_length |].
  split; [apply Array_from_length |].
  split; [| split; [| split; [| split]]].
  - intros i Hi. cbv zeta. rewrite !Array_from_nth by lia.
    unfold covered. simpl text_of. simpl class_of.
    destruct ((start (span row) <=? i) && (i <? end_ (span row))) eqn:E.
    + apply in_range_iff in E.
      destruct (state row); repeat split; intros; try reflexivity; lia.
    + assert (~ start (span row) <= i < end_ (span row))
        by (rewrite <- in_range_iff, E; discriminate).
      repeat split; intros; try discriminate; try reflexivity; contradiction.
  - apply coverage_count; [lia | lia |]. intros i Hi. unfold covered. simpl.
    destruct ((start (span row) <=? i) && (i <? end_ (span row))); [| reflexivity].
    now destruct (state row).
  - apply coverage_count; [lia | lia |]. intros i Hi. unfold covered. simpl.
    destruct ((start (span row) <=? i) && (i <? end_ (span row))); [| reflexivity].
    now destruct (state row).
  - intros k Hk. split; [lia |].
    destruct (Z_lt_ge_dec (Z.of_nat k) numBlocks) as [Hlt | Hge]; [exact Hlt |].
    rewrite !nth_overflow in Hk by (rewrite Array_from_length; lia).
    destruct Hk; discriminate.
  - exact STATE_CHARS_glyphs.
Qed.

Lemma block_coverage_witness :
  let row :=
    {| short_peer_id := js "...abc"; peer_id := js "12D3KooWabc";
       show_public_name := true; state := unreachable;
       span := {| start := 1; end_ := 3; Types.length := 2;
                  server_info :=
                    {| public_name := undefined; version := undefined;
                       throughput := undefined; inference_rps := undefined;
                       forward_rps := undefined; network_rps := undefined;
                       torch_dtype := undefined; quant_type := undefined;
                       cache_tokens_left := undefined; using_relay := undefined |} |};
       adapters := []; pings_to_me := []; cache_tokens_left_per_block := undefined |} in
  map text_of (Basic.ServerRowItem_cells row 4) = [[]; js "✖"; js "✖"; []]
  /\ List.length (filter covered (Basic.ServerRowItem_cells row 4)) = 2%nat.
Proof.
  intros row.
  pose proof (block_coverage (fun _ => []) row 4
                ltac:(simpl; lia) ltac:(simpl; lia)) as H.
  split; [reflexivity |].
  exact (proj1 (proj2 (proj2 (proj2 H)))).
Defined.

(* ===================================================================== *)
(** * Facts about binary64 arithmetic                                      *)
(* ===================================================================== *)

(** ** Comparisons *)

Lemma SFcompare_antisym (x y : spec_float) :
  SFcompare y x = option_map CompOpp (SFcompare x y).
Proof.
  destruct x as [sx | sx | | sx mx ex], y as [sy | sy | | sy my ey]; simpl;
    try reflexivity;
    try (destruct sx; reflexivity); try (destruct sy; reflexivity);
    try (destruct sx, sy; reflexivity).
  destruct sx, sy; try reflexivity; f_equal;
    rewrite (Z.compare_antisym ey ex);
    destruct (ey ?= ex); simpl; try reflexivity;
    rewrite (Pos.compare_cont_antisym mx my Eq); simpl;
    destruct (Pos.compare_cont Eq my mx); reflexivity.
Qed.

Lemma SFcompare_None (x y : spec_float) :
  SFcompare x y = None -> x = S754_nan \/ y = S754_nan.
Proof.
  destruct x as [sx | sx | | sx mx ex], y as [sy | sy | | sy my ey]; simpl;
    try discriminate; auto.
Qed.

Lemma ltb_Lt (x y : float) :
  (x <? y)%float = true <-> SFcompare (Prim2SF x) (Prim2SF y) = Some Lt.
Proof.
  rewrite ltb_spec. unfold SFltb.
  destruct (SFcompare (Prim2SF x) (Prim2SF y)) as [[| |] |]; split;
    intros H; try discriminate; reflexivity.
Qed.

Lemma leb_Lt_Eq (x y : float) :
  (x <=? y)%float = true <->
  SFcompare (Prim2SF x) (Prim2SF y) = Some Lt
  \/ SFcompare (Prim2SF x) (Prim2SF y) = Some Eq.
Proof.
  rewrite leb_spec. unfold SFleb.
  destruct (SFcompare (Prim2SF x) (Prim2SF y)) as [[| |] |]; split;
    intros H; try discriminate; try reflexivity; try tauto;
    destruct H; discriminate.
Qed.

Lemma isNaN_false (x : float) : isNaN x = false <-> Prim2SF x <> S754_nan.
Proof.
  unfold isNaN. destruct (Prim2SF x); split; intros H;
    try reflexivity; try discriminate; congruence.
Qed.

(** Two numbers that are not NaN compare one way or the other. *)
Lemma compare_total (x y : float) :
  isNaN x = false -> isNaN y = false ->
  (x <? y)%float = true
  \/ (y <? x)%float = true
  \/ SFcompare (Prim2SF x) (Prim2SF y) = Some Eq.
Proof.
  intros Hx Hy. apply isNaN_false in Hx, Hy. rewrite !ltb_Lt.
  rewrite (SFcompare_antisym (Prim2SF x) (Prim2SF y)).
  destruct (SFcompare (Prim2SF x) (Prim2SF y)) as [[| |] |] eqn:E; simpl; auto.
  apply SFcompare_None in E. tauto.
Qed.

Lemma ltb_asym (x y : float) : (x <? y)%float = true -> (y <? x)%float = false.
Proof.
  intros H. apply ltb_Lt in H.
  destruct (y <? x)%float eqn:E; [| reflexivity].
  apply ltb_Lt in E. rewrite SFcompare_antisym, H in E. discriminate.
Qed.

Lemma ltb_leb (x y : float) : (x <? y)%float = true -> (x <=? y)%float = true.
Proof. intros H. apply leb_Lt_Eq. left. now apply ltb_Lt. Qed.

Lemma ltb_not_leb (x y : float) : (x <? y)%float = true -> (y <=? x)%float = false.
Proof.
  intros H. apply ltb_Lt in H.
  destruct (y <=? x)%float eqn:E; [| reflexivity].
  apply leb_Lt_Eq in E. rewrite SFcompare_antisym, H in E.
  destruct E; discriminate.
Qed.

(** Comparing equal to a finite number is being that number. *)
Lemma compare_Eq_finite (x y : float) s m e :
  Prim2SF y = S754_finite s m e ->
  SFcompare (Prim2SF x) (Prim2SF y) = Some Eq -> x = y.
Proof.
  intros Hy H. apply Prim2SF_inj. rewrite Hy in *.
  destruct (Prim2SF x) as [sx | sx | | sx mx ex]; simpl in H;
    try discriminate;
    try (destruct sx; discriminate); try (destruct s; discriminate).
  destruct sx, s; try discriminate;
    destruct (ex ?= e) eqn:Ee; try discriminate;
    apply Z.compare_eq in Ee; subst;
    destruct (Pos.compare_cont Eq mx m) eqn:Em; try discriminate;
    apply Pos.compare_eq in Em; now subst.
Qed.

(** ** Rounding never invents a NaN *)

Lemma shr_1_nonneg (r : shr_record) : 0 <= shr_m r -> 0 <= shr_m (shr_1 r).
Proof.
  destruct r as [m r s]. simpl. intros H.
  destruct m as [| [p | p |] | p]; simpl; lia.
Qed.

Lemma iter_pos_shr_1_nonneg (p : positive) (r : shr_record) :
  0 <= shr_m r -> 0 <= shr_m (iter_pos shr_1 p r).
Proof.
  revert r. induction p as [p IH | p IH |]; intros r H; simpl.
  - apply IH, IH, shr_1_nonneg, H.
  - apply IH, IH, H.
  - apply shr_1_nonneg, H.
Qed.

Lemma shr_fexp_nonneg (m e : Z) (l : location) :
  0 <= m -> 0 <= shr_m (fst (shr_fexp prec emax m e l)).
Proof.
  intros H. unfold shr_fexp, shr.
  assert (H0 : 0 <= shr_m (shr_record_of_loc m l))
    by (destruct l as [| []]; exact H).
  destruct (fexp prec emax (Zdigits2 m + e) - e); simpl; try exact H0.
  now apply iter_pos_shr_1_nonneg.
Qed.

Lemma round_nearest_even_nonneg (m : Z) (l : location) :
  0 <= m -> 0 <= round_nearest_even m l.
Proof.
  intros H. destruct l as [| []]; simpl; try lia.
  destruct (Z.even m); lia.
Qed.

Lemma binary_round_aux_not_nan (s : bool) (m e : Z) (l : location) :
  0 <= m -> binary_round_aux prec emax s m e l <> S754_nan.
Proof.
  intros H. unfold binary_round_aux.
  pose proof (shr_fexp_nonneg m e l H) as H1.
  destruct (shr_fexp prec emax m e l) as [mrs' e']. simpl in H1.
  pose proof (shr_fexp_nonneg _ e' loc_Exact
                (round_nearest_even_nonneg _ (loc_of_shr_record mrs') H1)) as H2.
  destruct (shr_fexp prec emax (round_nearest_even (shr_m mrs') (loc_of_shr_record mrs'))
              e' loc_Exact) as [mrs'' e''].
  simpl in H2. destruct (shr_m mrs'') as [| p | p]; try discriminate; [| lia].
  destruct (e'' <=? emax - prec); discriminate.
Qed.

(** The product of a number that is not NaN and a finite number that is
    not zero is not NaN. *)
Lemma mul_finite_not_nan (x y : float) s m e :
  Prim2SF y = S754_finite s m e -> isNaN x = false -> isNaN (x * y) = false.
Proof.
  intros Hy Hx. apply isNaN_false in Hx. apply isNaN_false.
  rewrite mul_spec, Hy. unfold SF64mul.
  destruct (Prim2SF x) as [sx | sx | | sx mx ex]; simpl;
    try discriminate; try contradiction.
  apply binary_round_aux_not_nan. lia.
Qed.

(* ===================================================================== *)
(** * Poll cadence                                                         *)
(* ===================================================================== *)

Lemma Math_max_floor (a b : float) s m e :
  Prim2SF b = S754_finite s m e -> isNaN a = false ->
  Math_max a b = (if (b <? a)%float then a else b)
  /\ (b <=? Math_max a b)%float = true.
Proof.
  intros Hb Ha.
  assert (Hnb : isNaN b = false) by (apply isNaN_false; rewrite Hb; discriminate).
  assert (Hbb : (b <=? b)%float = true).
  { apply leb_Lt_Eq. right. rewrite Hb. simpl.
    destruct s; rewrite Z.compare_refl, Pos.compare_cont_refl; reflexivity. }
  unfold Math_max. rewrite Ha, Hnb. simpl orb. cbv iota.
  destruct (compare_total a b Ha Hnb) as [H | [H | H]].
  - rewrite H, (ltb_asym _ _ H). now split.
  - rewrite H, (ltb_asym _ _ H). split; [reflexivity | now apply ltb_leb].
  - apply (compare_Eq_finite a b s m e Hb) in H. subst a.
    destruct (b <? b)%float; [now split |].
    destruct (signbit b); now split.
Qed.

(** C4.  The refetch interval is the larger of the update period of the
    last successful snapshot (60 before any) times 1000 and of 30000, and so
    at least 30000, for every update period that is a Number other than NaN
    (0 and the negative ones included; a JSON payload cannot carry NaN). *)
Theorem refetchInterval_floor (data : option HealthState) :
  let p := match data with Some d => update_period d | None => 60%float end in
  isNaN p = false ->
  Basic.refetchInterval data
  = (if (30000 <? p * 1000)%float then (p * 1000)%float else 30000%float)
  /\ (30000 <=? Basic.refetchInterval data)%float = true
  /\ Rich.refetchInterval data = Basic.refetchInterval data
  /\ Basic.refetchInterval None = 60000%float.
Proof.
  intros p Hp.
  assert (H1000 : Prim2SF 1000 = S754_finite false 8796093022208000 (-43))
    by reflexivity.
  assert (H30000 : Prim2SF 30000 = S754_finite false 8246337208320000 (-38))
    by reflexivity.
  pose proof (mul_finite_not_nan p 1000 _ _ _ H1000 Hp) as Ha.
  destruct (Math_max_floor (p * 1000) 30000 _ _ _ H30000 Ha) as [Hmax Hle].
  unfold Basic.refetchInterval, Rich.refetchInterval. fold p.
  repeat split; assumption || reflexivity.
Qed.

Lemma refetchInterval_floor_witness :
  let snapshot (period : float) : HealthState :=
    {| bootstrap_states := []; top_contributors := []; model_reports := [];
       reachability_issues := []; last_updated := 1700000000000%float;
       update_period := period; update_duration := 0%float |} in
  Basic.refetchInterval (Some (snapshot 0%float)) = 30000%float
  /\ (30000 <=? Basic.refetchInterval (Some (snapshot (-5)%float)))%float = true
  /\ Basic.refetchInterval (Some (snapshot 120%float)) = 120000%float.
Proof.
  intros snapshot.
  split; [| split].
  - exact (proj1 (refetchInterval_floor (Some (snapshot 0%float)) eq_refl)).
  - exact (proj1 (proj2 (refetchInterval_floor (Some (snapshot (-5)%float)) eq_refl))).
  - exact (proj1 (refetchInterval_floor (Some (snapshot 120%float)) eq_refl)).
Defined.

(** ** The exponent of a rounded product *)

Lemma fexp_eq (x : Z) : fexp prec emax x = Z.max (x - 53) (-1074).
Proof. reflexivity. Qed.

Lemma digits2_size (p : positive) : digits2_pos p = Pos.size p.
Proof. induction p; simpl; congruence. Qed.

Lemma Zdigits2_bounds (p : positive) :
  2 ^ (Zpos (digits2_pos p) - 1) <= Zpos p < 2 ^ Zpos (digits2_pos p).
Proof.
  rewrite digits2_size. split.
  - pose proof (Pos.size_le p) as H.
    apply Pos2Z.pos_le_pos in H. rewrite Pos2Z.inj_pow in H.
    replace (Zpos (Pos.size p)) with (Zpos (Pos.size p) - 1 + 1) in H by lia.
    rewrite Z.pow_add_r in H by lia. change (2 ^ 1) with 2 in H.
    rewrite (Pos2Z.inj_xO p) in H. lia.
  - pose proof (Pos.size_gt p) as H.
    apply Pos2Z.pos_lt_pos in H. now rewrite Pos2Z.inj_pow in H.
Qed.

Lemma Zdigits2_lt (m d : Z) : 0 <= m -> 0 <= d -> Zdigits2 m <= d -> m < 2 ^ d.
Proof.
  intros Hm Hd H. destruct m as [| p | p]; [| | lia].
  - apply Z.pow_pos_nonneg; lia.
  - simpl in H. pose proof (Zdigits2_bounds p) as [_ Hlt].
    eapply Z.lt_le_trans; [exact Hlt |]. apply Z.pow_le_mono_r; lia.
Qed.

Lemma Zdigits2_le (m d : Z) : 0 <= d -> 0 <= m < 2 ^ d -> Zdigits2 m <= d.
Proof.
  intros Hd [Hm H]. destruct m as [| p | p]; simpl; try lia.
  pose proof (Zdigits2_bounds p) as [Hle _].
  destruct (Z_le_gt_dec (Zpos (digits2_pos p)) d) as [| Hgt]; [assumption |].
  assert (2 ^ d <= 2 ^ (Zpos (digits2_pos p) - 1))
    by (apply Z.pow_le_mono_r; lia).
  lia.
Qed.

Lemma shr_1_div2 (r : shr_record) : 0 <= shr_m r -> shr_m (shr_1 r) = shr_m r / 2.
Proof.
  destruct r as [m r s]. simpl. intros H. rewrite <- Z.div2_div.
  destruct m as [| [p | p |] | p]; simpl; reflexivity || lia.
Qed.

Lemma iter_pos_shr_1_div (p : positive) (r : shr_record) :
  0 <= shr_m r -> shr_m (iter_pos shr_1 p r) = shr_m r / 2 ^ Zpos p.
Proof.
  revert r. induction p as [p IH | p IH |]; intros r H; simpl iter_pos.
  - rewrite IH by (apply iter_pos_shr_1_nonneg, shr_1_nonneg, H).
    rewrite IH by (apply shr_1_nonneg, H).
    rewrite shr_1_div2 by exact H.
    assert (0 < 2 ^ Zpos p) by (apply Z.pow_pos_nonneg; lia).
    rewrite !Z.div_div by lia. f_equal.
    rewrite (Pos2Z.inj_xI p).
    replace (2 * Zpos p + 1) with (1 + Zpos p + Zpos p) by lia.
    rewrite !Z.pow_add_r by lia. change (2 ^ 1) with 2. lia.
  - rewrite IH by (apply iter_pos_shr_1_nonneg, H).
    rewrite IH by exact H.
    assert (0 < 2 ^ Zpos p) by (apply Z.pow_pos_nonneg; lia).
    rewrite !Z.div_div by lia. f_equal.
    rewrite (Pos2Z.inj_xO p).
    replace (2 * Zpos p) with (Zpos p + Zpos p) by lia.
    now rewrite !Z.pow_add_r by lia.
  - rewrite shr_1_div2 by exact H. reflexivity.
Qed.

Lemma shr_record_of_loc_m (m : Z) (l : location) : shr_m (shr_record_of_loc m l) = m.
Proof. destruct l as [| []]; reflexivity. Qed.

(** What the alignment step of a rounding leaves: the exponent of the format
    and a mantissa that fits. *)
Lemma shr_fexp_spec (m e : Z) (l : location) :
  0 <= m ->
  snd (shr_fexp prec emax m e l) = Z.max e (fexp prec emax (Zdigits2 m + e))
  /\ 0 <= shr_m (fst (shr_fexp prec emax m e l)) < 2 ^ 53.
Proof.
  intros Hm. split; [| split; [now apply shr_fexp_nonneg |]];
    unfold shr_fexp, shr; rewrite fexp_eq;
    destruct (Z.max (Zdigits2 m + e - 53) (-1074) - e) as [| p | p] eqn:E;
    cbn [fst snd]; rewrite ?shr_record_of_loc_m; try lia.
  - apply Zdigits2_lt; lia.
  - rewrite iter_pos_shr_1_div by (rewrite shr_record_of_loc_m; exact Hm).
    rewrite shr_record_of_loc_m.
    apply Z.div_lt_upper_bound; [apply Z.pow_pos_nonneg; lia |].
    rewrite <- Z.pow_add_r by lia.
    destruct (Z_le_gt_dec 0 (Zdigits2 m)) as [Hd | Hd].
    + apply Zdigits2_lt; lia.
    + destruct m; simpl in Hd; lia.
  - apply Zdigits2_lt; lia.
Qed.

Lemma round_nearest_even_le (m : Z) (l : location) :
  round_nearest_even m l <= m + 1.
Proof. destruct l as [| []]; simpl; try lia. destruct (Z.even m); lia. Qed.

(** The sign of a rounded value is the one given, and its exponent is at
    most one above the exponent that the format gives to the exact value;
    the result is infinite only when that goes beyond the largest
    exponent. *)
Lemma binary_round_aux_bound (s : bool) (m e : Z) (l : location) :
  0 <= m ->
  match binary_round_aux prec emax s m e l with
  | S754_finite s' _ e' =>
    s' = s /\ e' <= Z.max e (fexp prec emax (Zdigits2 m + e)) + 1
  | S754_infinity s' =>
    s' = s /\ emax - prec < Z.max e (fexp prec emax (Zdigits2 m + e)) + 1
  | S754_zero s' => s' = s
  | S754_nan => False
  end.
Proof.
  intros Hm. unfold binary_round_aux.
  destruct (shr_fexp_spec m e l Hm) as [He1 Hm1].
  destruct (shr_fexp prec emax m e l) as [mrs' e1]. simpl in He1, Hm1.
  set (m1 := round_nearest_even (shr_m mrs') (loc_of_shr_record mrs')).
  assert (Hm1' : 0 <= m1 <= 2 ^ 53).
  { split; [apply round_nearest_even_nonneg; lia |].
    pose proof (round_nearest_even_le (shr_m mrs') (loc_of_shr_record mrs')).
    subst m1. lia. }
  destruct (shr_fexp_spec m1 e1 loc_Exact (proj1 Hm1')) as [He2 Hm2].
  destruct (shr_fexp prec emax m1 e1 loc_Exact) as [mrs'' e2]. simpl in He2, Hm2.
  assert (Hd : Zdigits2 m1 <= 54).
  { apply Zdigits2_le; [lia |]. split; [lia |].
    assert (2 ^ 53 < 2 ^ 54) by reflexivity. lia. }
  assert (He : e2 <= e1 + 1).
  { rewrite He2, fexp_eq. rewrite He1, fexp_eq. lia. }
  destruct (shr_m mrs'') as [| p | p]; [reflexivity | | lia].
  destruct (e2 <=? emax - prec) eqn:E.
  - split; [reflexivity | lia].
  - apply Z.leb_gt in E. split; [reflexivity | lia].
Qed.

(** A valid finite double has a mantissa below [2^53], and an exponent
    within the format. *)
Lemma finite_valid (x : float) s m e :
  Prim2SF x = S754_finite s m e ->
  Zpos m < 2 ^ 53 /\ -1074 <= e <= 971.
Proof.
  intros H. pose proof (Prim2SF_valid x) as Hv. rewrite H in Hv.
  unfold valid_binary, bounded, canonical_mantissa in Hv.
  apply andb_prop in Hv. destruct Hv as [Hc He].
  apply Z.eqb_eq in Hc. apply Z.leb_le in He. rewrite fexp_eq in Hc.
  change (emax - prec) with 971 in He.
  split; [| lia].
  apply (Zdigits2_lt (Zpos m) 53); simpl; lia.
Qed.

(** The product of two finite doubles: not NaN, of the expected sign, and
    of an exponent bounded by those of the factors. *)
Lemma mul_finite_bound (x y : float) sx mx ex sy my ey :
  Prim2SF x = S754_finite sx mx ex ->
  Prim2SF y = S754_finite sy my ey ->
  match Prim2SF (x * y) with
  | S754_finite s _ e => s = xorb sx sy /\ e <= Z.max (ex + ey + 53) (-1074) + 1
  | S754_infinity s => s = xorb sx sy /\ 971 < Z.max (ex + ey + 53) (-1074) + 1
  | S754_zero s => s = xorb sx sy
  | S754_nan => False
  end.
Proof.
  intros Hx Hy.
  destruct (finite_valid x _ _ _ Hx) as [Hmx _].
  destruct (finite_valid y _ _ _ Hy) as [Hmy _].
  rewrite mul_spec, Hx, Hy. unfold SF64mul, SFmul.
  pose proof (binary_round_aux_bound (xorb sx sy) (Zpos (mx * my)) (ex + ey)
                loc_Exact ltac:(lia)) as H.
  assert (Hd : Zdigits2 (Zpos (mx * my)) <= 106).
  { apply Zdigits2_le; [lia |]. split; [lia |].
    rewrite Pos2Z.inj_mul. change 106 with (53 + 53).
    rewrite Z.pow_add_r by lia.
    apply Z.mul_lt_mono_nonneg; lia. }
  rewrite fexp_eq in H. change (emax - prec) with 971 in H.
  destruct (binary_round_aux prec emax (xorb sx sy) (Zpos (mx * my)) (ex + ey) loc_Exact);
    try exact H; destruct H as [Hs He]; split; try exact Hs; lia.
Qed.

(* ===================================================================== *)
(** * [toFixed] with one fraction digit                                    *)
(* ===================================================================== *)

Lemma pow2_neg (e : Z) : e < 0 -> pow2 e = (1 # Z.to_pos (2 ^ (- e)))%Q.
Proof.
  intros H. unfold pow2. destruct (Z.leb_spec 0 e); [lia | reflexivity].
Qed.


Lemma scaled_lt (a e b : Z) :
  e < 0 -> a < b * 2 ^ (- e) -> (inject_Z a * pow2 e < inject_Z b)%Q.
Proof.
  intros He H. rewrite pow2_neg by exact He.
  assert (Hp : 0 < 2 ^ (- e)) by (apply Z.pow_pos_nonneg; lia).
  unfold Qlt, Qmult, inject_Z. cbn [Qnum Qden].
  rewrite Pos2Z.inj_mul, Z2Pos.id by exact Hp. lia.
Qed.

Lemma scaled_nonneg (a e : Z) : 0 <= a -> (0 <= inject_Z a * pow2 e)%Q.
Proof.
  intros H. unfold pow2. destruct (0 <=? e).
  - rewrite <- inject_Z_mult. change 0%Q with (inject_Z 0). rewrite <- Zle_Qle.
    apply Z.mul_nonneg_nonneg; [exact H | apply Z.pow_nonneg; lia].
  - unfold Qle, Qmult, inject_Z. cbn [Qnum Qden]. lia.
Qed.

Lemma skipn_last {A : Type} (l : list A) :
  l <> [] -> exists d, skipn (List.length l - 1) l = [d].
Proof.
  intros H. destruct (exists_last H) as (l' & d & ->). exists d.
  rewrite length_app. simpl.
  replace (List.length l' + 1 - 1)%nat with (List.length l' + 0)%nat by lia.
  rewrite skipn_app, Nat.add_0_r, skipn_all.
  now replace (List.length l' - List.length l')%nat with 0%nat by lia.
Qed.

Lemma digits_value_leading_zero (ds : jsstring) :
  digits_value (48%N :: ds) = digits_value ds.
Proof. reflexivity. Qed.

(** One fraction digit of a finite number that is not negative and is below
    [10^21]: an integer part of at least one digit, a point, one digit; the
    digits are those of the integer nearest to ten times the number, a half
    going up. *)
Lemma toFixed_1_shape (x : float) :
  isFinite x = true -> (0 <= real x)%Q -> (real x < pow10 21)%Q ->
  exists whole d,
    toFixed x 1 = whole ++ js "." ++ [d]
    /\ whole <> []
    /\ Forall (fun c => is_digit c = true) (whole ++ [d])
    /\ digits_value (whole ++ [d]) = Qfloor (real x * inject_Z 10 + (1 # 2))%Q.
Proof.
  intros Hfin Hpos Hlt. unfold toFixed. rewrite Hfin. simpl negb. cbv iota.
  assert (Habs : (Qabs (real x) == real x)%Q) by (apply Qabs_pos; exact Hpos).
  assert (Hs : Qlt_bool (real x) 0 = false).
  { unfold Qlt_bool. apply negb_false_iff. now apply Qle_bool_iff. }
  rewrite Hs.
  assert (Hbig : Qle_bool (pow10 21) (Qabs (real x)) = false).
  { destruct (Qle_bool (pow10 21) (Qabs (real x))) eqn:E; [| reflexivity].
    apply Qle_bool_iff in E. rewrite Habs in E.
    exfalso. exact (Qlt_not_le _ _ Hlt E). }
  rewrite Hbig.
  change (pow10 (Z.of_nat 1)) with (inject_Z 10).
  set (n := Qfloor (Qabs (real x) * inject_Z 10 + (1 # 2))%Q).
  assert (Hn : n = Qfloor (real x * inject_Z 10 + (1 # 2))%Q).
  { subst n. apply Qfloor_comp. now rewrite Habs. }
  assert (Hn0 : 0 <= n).
  { rewrite Hn. change 0 with (Qfloor 0). apply Qfloor_resp_le.
    apply (Qle_trans _ (real x * inject_Z 10 + 0)%Q).
    - rewrite Qplus_0_r. apply Qmult_le_0_compat; [exact Hpos | discriminate].
    - apply Qplus_le_r. discriminate. }
  assert (Hm : (if n =? 0 then js "0" else decimal n) = decimal n).
  { destruct (Z.eqb_spec n 0) as [-> | _]; reflexivity. }
  rewrite Hm, <- Hn. clear Hm.
  destruct (decimal_spec n Hn0) as (Hv & Hd & Hne).
  change (1 =? 0)%nat with false. cbv iota.
  set (m := if (List.length (decimal n) <=? 1)%nat
            then zeros (1 + 1 - List.length (decimal n)) ++ decimal n
            else decimal n).
  assert (Hmspec : (2 <= List.length m)%nat
                   /\ Forall (fun c => is_digit c = true) m
                   /\ digits_value m = n).
  { subst m. destruct (Nat.leb_spec (List.length (decimal n)) 1) as [Hk | Hk].
    - destruct (decimal n) as [| c [| c' t]] eqn:Hdec;
        [contradiction | | simpl in Hk; lia].
      simpl. repeat split; [lia | | exact Hv].
      constructor; [reflexivity | exact Hd].
    - repeat split; [lia | exact Hd | exact Hv]. }
  destruct Hmspec as (Hlen & Hmd & Hmv).
  assert (Hmne : m <> []) by (intros E; rewrite E in Hlen; simpl in Hlen; lia).
  destruct (skipn_last m Hmne) as [d Hd1].
  exists (firstn (List.length m - 1) m), d. simpl app at 1.
  rewrite Hd1.
  assert (Hjoin : firstn (List.length m - 1) m ++ [d] = m)
    by (rewrite <- Hd1; apply firstn_skipn).
  rewrite Hjoin. repeat split; try assumption.
  intros E. apply (f_equal (@List.length _)) in E.
  rewrite length_firstn in E. simpl in E. lia.
Qed.

(* ===================================================================== *)
(** * Round-trip times                                                     *)
(* ===================================================================== *)

(** A round-trip time between 0 and 5 is a zero or a positive finite double
    whose exponent is that of 5 at most. *)
Lemma ping_range (r : float) :
  (0 <=? r)%float = true -> (r <=? 5)%float = true ->
  (exists s, Prim2SF r = S754_zero s)
  \/ (exists m e, Prim2SF r = S754_finite false m e /\ e <= -50).
Proof.
  intros H0 H5. apply leb_Lt_Eq in H0, H5.
  change (Prim2SF 0) with (S754_zero false) in H0.
  change (Prim2SF 5) with (S754_finite false 5629499534213120 (-50)) in H5.
  destruct (Prim2SF r) as [s | s | | s m e]; cbn [SFcompare] in H0, H5.
  - left. now exists s.
  - destruct s; destruct H0, H5; discriminate.
  - destruct H0; discriminate.
  - right. exists m, e.
    destruct s; [destruct H0; discriminate |].
    split; [reflexivity |].
    destruct (Z.compare_spec e (-50)); [lia | lia | destruct H5; discriminate].
Qed.

(** In milliseconds it is finite, not negative, and far below [10^21]. *)
Lemma ping_ms (r : float) :
  (0 <=? r)%float = true -> (r <=? 5)%float = true ->
  isFinite (r * 1000) = true
  /\ (0 <= real (r * 1000))%Q
  /\ (real (r * 1000) < pow10 21)%Q.
Proof.
  intros H0 H5.
  assert (H1000 : Prim2SF 1000 = S754_finite false 8796093022208000 (-43))
    by reflexivity.
  destruct (ping_range r H0 H5) as [[s Hr] | (m & e & Hr & He)].
  - unfold isFinite, real. rewrite mul_spec, Hr, H1000. simpl.
    repeat split; discriminate.
  - pose proof (mul_finite_bound r 1000 _ _ _ _ _ _ Hr H1000) as H.
    unfold isFinite, real.
    destruct (Prim2SF (r * 1000)) as [s' | s' | | s' m' e'] eqn:E.
    + repeat split; discriminate.
    + destruct H as [_ H]. lia.
    + contradiction.
    + destruct H as [-> He'].
      destruct (finite_valid _ _ _ _ E) as [Hm' _].
      split; [reflexivity |]. simpl cond_Zopp.
      split; [apply scaled_nonneg; lia |].
      change (pow10 21) with (inject_Z (10 ^ 21)).
      apply scaled_lt; [lia |].
      assert (2 ^ 39 <= 2 ^ (- e')) by (apply Z.pow_le_mono_r; lia).
      assert (2 ^ 53 < 10 ^ 21 * 2 ^ 39) by reflexivity.
      assert (0 < 10 ^ 21) by reflexivity.
      nia.
Qed.

(** C7.  A round-trip time [r] that is not negative is shown, when
    [r <= 5], as the product [r * 1000] of the doubles to one fraction digit
    (an integer part, a point, one digit: the integer nearest to ten times
    the product, a half going up) followed by " ms", and when [r > 5] as
    "> 5 s"; 0.0423 gives "42.3 ms" and 7 gives "> 5 s". *)
Theorem formatPing_spec (r : float) :
  (0 <=? r)%float = true ->
  ((r <=? 5)%float = true ->
     Basic.formatPing r = toFixed (r * 1000) 1 ++ js " ms"
     /\ exists whole d,
          Basic.formatPing r = whole ++ js "." ++ [d] ++ js " ms"
          /\ whole <> []
          /\ Forall (fun c => is_digit c = true) (whole ++ [d])
          /\ digits_value (whole ++ [d])
             = Qfloor (real (r * 1000) * inject_Z 10 + (1 # 2))%Q)
  /\ ((5 <? r)%float = true -> Basic.formatPing r = js "> 5 s")
  /\ Rich.formatPing r = Basic.formatPing r
  /\ Basic.formatPing 0.0423 = js "42.3 ms"
  /\ Basic.formatPing 7 = js "> 5 s".
Proof.
  intros H0. split; [| split; [| split; [| split]]].
  - intros H5. unfold Basic.formatPing. rewrite H5. split; [reflexivity |].
    destruct (ping_ms r H0 H5) as (Hfin & Hpos & Hlt).
    destruct (toFixed_1_shape _ Hfin Hpos Hlt) as (whole & d & Heq & Hne & Hd & Hv).
    exists whole, d. rewrite Heq, <- !app_assoc. repeat split; assumption.
  - intros H5. unfold Basic.formatPing. now rewrite (ltb_not_leb _ _ H5).
  - reflexivity.
  - vm_compute. reflexivity.
  - vm_compute. reflexivity.
Qed.

Lemma formatPing_spec_witness :
  Basic.formatPing 0.0423 = toFixed (0.0423 * 1000) 1 ++ js " ms"
  /\ Basic.formatPing 5.5 = js "> 5 s".
Proof.
  split.
  - exact (proj1 (proj1 (formatPing_spec 0.0423%float eq_refl) eq_refl)).
  - exact (proj1 (proj2 (formatPing_spec 5.5%float eq_refl)) eq_refl).
Defined.

(* ===================================================================== *)
(** * Timestamp normalization                                              *)
(* ===================================================================== *)

Lemma isFinite_not_NaN (x : float) : isFinite x = true -> isNaN x = false.
Proof. unfold isFinite, isNaN. now destruct (Prim2SF x). Qed.

(** The product by 1000 of a finite double of magnitude at most 8e304 is
    finite. *)
Lemma mul_1000_finite (v : float) :
  isFinite v = true -> (abs v <=? 8e304)%float = true ->
  isFinite (v * 1000) = true.
Proof.
  intros Hfin Hle.
  assert (H1000 : Prim2SF 1000 = S754_finite false 8796093022208000 (-43))
    by reflexivity.
  apply leb_Lt_Eq in Hle. rewrite abs_spec in Hle.
  change (Prim2SF 8e304) with (S754_finite false 8209073602596752 960) in Hle.
  unfold isFinite in *.
  destruct (Prim2SF v) as [s | s | | s m e] eqn:Hv; try discriminate.
  - rewrite mul_spec, Hv, H1000. reflexivity.
  - assert (He : e <= 960).
    { cbn [SFabs SFcompare] in Hle. destruct (Z.compare_spec e 960); try lia.
      destruct Hle; discriminate. }
    pose proof (mul_finite_bound v 1000 _ _ _ _ _ _ Hv H1000) as H.
    destruct (Prim2SF (v * 1000)); try reflexivity; [| contradiction].
    destruct H as [_ H]. lia.
Qed.

(** C3 as stated fails on a finite wire value whose product by 1000
    overflows: the result is infinite. *)
Lemma normalizeTimestamp_overflow :
  isFinite 1e306 = true
  /\ isFinite 1700000000000 = true
  /\ normalizeTimestamp (WNumber 1e306) 1700000000000 = infinity
  /\ normalizeTimestamp (WString (js "1e306")) 1700000000000 = infinity
  /\ isFinite (normalizeTimestamp (WNumber 1e306) 1700000000000) = false.
Proof. repeat split; vm_compute; reflexivity. Qed.

(** C3, amended.  A wire value that is a finite Number, or a string whose
    conversion by [Number] is finite, is mapped to the product of that
    double and 1000 (the string "1700000000" to 1700000000000); any other
    wire value (absent, null, of another type, a non-finite Number, a string
    whose conversion is NaN or infinite, such as "not-a-number") to the
    current instant.  The result is never NaN, and it is finite whenever the
    magnitude of the wire value is at most 8e304; beyond, the product may
    overflow to an infinity. *)
Theorem normalizeTimestamp_spec (w : wire) (now : float) :
  isFinite now = true ->
  let numeric :=
    match w with
    | WNumber v => Some v
    | WString s => Some (Number_of_string s)
    | _ => None
    end in
  (forall v, numeric = Some v -> isFinite v = true ->
     normalizeTimestamp w now = (v * 1000)%float
     /\ ((abs v <=? 8e304)%float = true ->
         isFinite (normalizeTimestamp w now) = true))
  /\ (numeric = None \/ (exists v, numeric = Some v /\ isFinite v = false) ->
      normalizeTimestamp w now = now)
  /\ isNaN (normalizeTimestamp w now) = false
  /\ normalizeTimestamp (WString (js "1700000000")) now = 1700000000000%float
  /\ normalizeTimestamp (WString (js "not-a-number")) now = now.
Proof.
  intros Hnow numeric.
  assert (H1000 : Prim2SF 1000 = S754_finite false 8796093022208000 (-43))
    by reflexivity.
  assert (Hcase : forall v, numeric = Some v ->
            normalizeTimestamp w now = if isFinite v then (v * 1000)%float else now).
  { intros v Hv. subst numeric. destruct w; try discriminate;
      injection Hv as <-; reflexivity. }
  split; [| split; [| split; [| split]]].
  - intros v Hv Hfin. rewrite (Hcase v Hv), Hfin. split; [reflexivity |].
    now apply mul_1000_finite.
  - intros [Hnone | (v & Hv & Hinf)].
    + subst numeric. destruct w; try discriminate; reflexivity.
    + now rewrite (Hcase v Hv), Hinf.
  - destruct numeric as [v |] eqn:Hnum.
    + rewrite (Hcase v eq_refl). destruct (isFinite v) eqn:Hfin.
      * apply (mul_finite_not_nan v 1000 _ _ _ H1000).
        now apply isFinite_not_NaN.
      * now apply isFinite_not_NaN.
    + subst numeric. destruct w; try discriminate; now apply isFinite_not_NaN.
  - vm_compute. reflexivity.
  - vm_compute. reflexivity.
Qed.

Lemma normalizeTimestamp_spec_witness :
  normalizeTimestamp (WNumber 1700000000) 1700000000123 = 1700000000000%float
  /\ normalizeTimestamp WAbsent 1700000000123 = 1700000000123%float.
Proof.
  pose proof (normalizeTimestamp_spec (WNumber 1700000000) 1700000000123 eq_refl) as H1.
  pose proof (normalizeTimestamp_spec WAbsent 1700000000123 eq_refl) as H2.
  split.
  - exact (proj1 (proj1 H1 1700000000%float eq_refl eq_refl)).
  - exact (proj1 (proj2 H2) (or_introl eq_refl)).
Defined.

(* ===================================================================== *)
(** * Integers as doubles                                                  *)
(* ===================================================================== *)






(* ===================================================================== *)
(** * [Math.round]                                                         *)
(* ===================================================================== *)







(* ===================================================================== *)
(** * [toLocaleString] of an integer                                       *)
(* ===================================================================== *)


(* ===================================================================== *)
(** * Grouping by thousands                                                *)
(* ===================================================================== *)






(* ===================================================================== *)
(** * Throughput                                                           *)
(* ===================================================================== *)


(* ===================================================================== *)
(** * Further properties of the derived views                              *)
(* ===================================================================== *)

(** ** Ranking *)

(** X1.  The ranking has five entries, or as many as the input when that
    has fewer; an input of at most five entries is only rearranged, nothing
    is dropped; the ranking is empty exactly for an empty input. *)
Theorem getTopContributors_size (counter : Record_ Z) :
  List.length (Basic.getTopContributors counter)
  = Nat.min 5 (List.length (Object_entries counter))
  /\ ((List.length (Object_entries counter) <= 5)%nat ->
      Permutation (Basic.getTopContributors counter) (Object_entries counter))
  /\ (Basic.getTopContributors counter = [] <-> Object_entries counter = []).
Proof.
  rewrite getTopContributors_firstn.
  set (cmp := fun '(_, a) '(_, b) => b - a).
  pose proof (Array_sort_perm cmp (Object_entries counter)) as Hperm.
  pose proof (Permutation_length Hperm) as Hlen.
  split; [| split].
  - rewrite length_firstn. lia.
  - intros H. rewrite firstn_all2 by lia. exact Hperm.
  - split; intros H.
    + apply (f_equal (@List.length _)) in H. rewrite length_firstn in H.
      cbn [List.length] in H. apply length_zero_iff_nil. lia.
    + rewrite H. reflexivity.
Qed.

(** ** Truncation *)

(** X2.  Truncating twice is truncating once, for every limit of at least
    one code unit (the dashboard uses 20 and 10). *)
Theorem truncateWithEllipsis_idempotent (v : jsstring) (max : Z) :
  1 <= max ->
  Basic.truncateWithEllipsis (Basic.truncateWithEllipsis v max) max
  = Basic.truncateWithEllipsis v max.
Proof.
  intros Hmax. apply truncate_short. now apply truncate_length.
Qed.

Lemma truncateWithEllipsis_idempotent_witness :
  Basic.truncateWithEllipsis
    (Basic.truncateWithEllipsis (js "https://example.org/a/long/path") 20) 20
  = Basic.truncateWithEllipsis (js "https://example.org/a/long/path") 20.
Proof.
  apply (truncateWithEllipsis_idempotent (js "https://example.org/a/long/path") 20).
  lia.
Defined.

Lemma truncate_nonempty (v : jsstring) (max : Z) :
  1 <= max -> v <> [] -> Basic.truncateWithEllipsis v max <> [].
Proof.
  intros Hmax Hv. destruct (Z_le_gt_dec (JS.length v) max) as [H | H].
  - now rewrite truncate_short.
  - rewrite truncate_long by lia. intros E. apply app_eq_nil in E.
    destruct E as [_ E]. discriminate.
Qed.

(** ** Versions *)

(** X3.  A version cell is never empty and never longer than 10 code
    units; it is the placeholder for an undefined, null or empty version, a
    version of 1 to 10 code units is shown unchanged, and a longer one is
    cut to its first 9 code units followed by the ellipsis. *)
Theorem renderVersion_bounds (version : nullable jsstring) :
  1 <= JS.length (Basic.renderVersion version) <= 10
  /\ (forall v, version = value v -> 1 <= JS.length v <= 10 ->
        Basic.renderVersion version = v)
  /\ (version = undefined \/ version = null \/ version = value [] ->
        Basic.renderVersion version = js "< 2.0.0")
  /\ (forall v, version = value v -> 10 < JS.length v ->
        Basic.renderVersion version = firstn 9 v ++ [ELLIPSIS]).
Proof.
  unfold Basic.renderVersion.
  split; [| split; [| split]].
  - destruct version as [| | [| c v]]; try (vm_compute; split; discriminate).
    pose proof (truncate_length (c :: v) 10 ltac:(lia)) as Hle.
    pose proof (truncate_nonempty (c :: v) 10 ltac:(lia) ltac:(discriminate)) as Hne.
    split; [| exact Hle]. unfold JS.length.
    destruct (Basic.truncateWithEllipsis (c :: v) 10); [contradiction | simpl; lia].
  - intros v -> Hlen. destruct v as [| c v]; [unfold JS.length in Hlen; simpl in Hlen; lia |].
    apply truncate_short. lia.
  - intros [-> | [-> | ->]]; reflexivity.
  - intros v -> Hlen. destruct v as [| c v]; [unfold JS.length in Hlen; simpl in Hlen; lia |].
    now rewrite truncate_long by lia.
Qed.

(** ** Grouped integers are never empty *)

Lemma decimal_nonempty (n : Z) : decimal n <> [].
Proof.
  unfold decimal. cbn [digits_aux].
  destruct (Z.abs n <? 10); [discriminate |].
  rewrite digits_aux_acc. intros E. apply app_eq_nil in E.
  destruct E as [_ E]. discriminate.
Qed.

Lemma group3_nonempty (ds : jsstring) : ds <> [] -> group3 ds <> [].
Proof.
  intros H. unfold group3. intros E.
  apply (f_equal (@rev _)) in E. rewrite rev_involutive in E. simpl in E.
  assert (Hr : rev ds <> []).
  { intros Er. apply (f_equal (@rev _)) in Er. rewrite rev_involutive in Er.
    now apply H. }
  destruct (rev ds) as [| a [| b [| c [| d l]]]]; try contradiction; discriminate.
Qed.

Lemma toLocaleString_nonempty (x : float) : toLocaleString x <> [].
Proof.
  unfold toLocaleString.
  assert (Hg : forall (sign frac : jsstring) k,
             sign ++ group3 (decimal k) ++ frac <> []).
  { intros sign frac k E. apply app_eq_nil in E. destruct E as [_ E].
    apply app_eq_nil in E. destruct E as [E _].
    exact (group3_nonempty _ (decimal_nonempty k) E). }
  destruct (Prim2SF x) as [s | s | | s m e]; try apply Hg.
  - destruct s; discriminate.
  - discriminate.
Qed.

(** ** The rates *)

(** X4.  A rate cell is empty exactly when the rate is absent or not
    finite, so that an empty cell never stands for a value; and the
    throughput cell of a finite value is its rate cell followed by
    " tok/s". *)
Theorem renderRps_empty_iff (v : nullable float) :
  (Basic.renderRps v = [] <-> Number_isFinite v = false)
  /\ (Number_isFinite v = true ->
      Basic.renderThroughput v = Basic.renderRps v ++ js " tok/s")
  /\ (Number_isFinite v = false ->
      Basic.renderThroughput v = js "—" /\ Basic.renderRps v = []).
Proof.
  unfold Basic.renderRps, Basic.renderThroughput.
  destruct (Number_isFinite v); cbn [negb].
  - split; [| split]; [| reflexivity | discriminate].
    split; [| discriminate]. intros E.
    now apply toLocaleString_nonempty in E.
  - split; [| split]; [| discriminate |]; now split.
Qed.

(** ** The cache column *)

(** X5.  The two dashboards show the same cache cell exactly for a finite
    value; for an absent or non-finite one the plain dashboard leaves the
    cell empty and the card-based one shows a dash.  A finite value never
    gives an empty cell. *)
Theorem renderCache_variants (v : nullable float) :
  (Basic.renderCache v = Rich.renderCache v <-> Number_isFinite v = true)
  /\ (Number_isFinite v = false ->
      Basic.renderCache v = [] /\ Rich.renderCache v = js "—")
  /\ (Number_isFinite v = true ->
      Basic.renderCache v = toLocaleString (Number_of v)
      /\ Basic.renderCache v <> []).
Proof.
  unfold Basic.renderCache, Rich.renderCache.
  destruct (Number_isFinite v); cbn [negb].
  - split; [| split]; [| discriminate |].
    + split; reflexivity.
    + intros _. split; [reflexivity | apply toLocaleString_nonempty].
  - split; [| split]; [| | discriminate].
    + split; [| discriminate]. intros E. vm_compute in E. discriminate E.
    + intros _. split; reflexivity.
Qed.

(* ===================================================================== *)
(** * Further properties of the fetcher                                    *)
(* ===================================================================== *)

(** X6.  The fetch is fulfilled exactly when the request itself succeeded,
    the status is in 200..299 and the body parsed; the snapshot is then the
    payload with only [last_updated] replaced by its normalization.  A
    failure of the request or of the parse is passed on unchanged. *)
Theorem fetchHealthState_fulfilled (fetched : outcome Response) (now : float) :
  (forall snapshot,
     fetchHealthState fetched now = fulfilled snapshot <->
     exists response payload,
       fetched = fulfilled response
       /\ 200 <= status response <= 299
       /\ json response = fulfilled payload
       /\ snapshot
          = {| bootstrap_states := bootstrap_states payload;
               top_contributors := top_contributors payload;
               model_reports := model_reports payload;
               reachability_issues := reachability_issues payload;
               last_updated := normalizeTimestamp (last_updated payload) now;
               update_period := update_period payload;
               update_duration := update_duration payload |})
  /\ (forall e, fetched = rejected e -> fetchHealthState fetched now = rejected e)
  /\ (forall response e,
        fetched = fulfilled response -> 200 <= status response <= 299 ->
        json response = rejected e -> fetchHealthState fetched now = rejected e).
Proof.
  assert (Hok : forall response,
            ok response = true <-> 200 <= status response <= 299).
  { intros response. unfold ok. rewrite andb_true_iff, !Z.leb_le. tauto. }
  split; [| split].
  - intros snapshot. split.
    + unfold fetchHealthState. destruct fetched as [response | e]; [| discriminate].
      destruct (ok response) eqn:E; cbn [negb]; [| discriminate].
      destruct (json response) as [payload | e] eqn:Hj; [| discriminate].
      intros H. injection H as <-. exists response, payload.
      apply Hok in E. repeat split; try reflexivity; try assumption; lia.
    + intros (response & payload & -> & Hs & Hj & ->).
      unfold fetchHealthState. apply Hok in Hs. rewrite Hs, Hj. reflexivity.
  - intros e ->. reflexivity.
  - intros response e -> Hs Hj. unfold fetchHealthState.
    apply Hok in Hs. now rewrite Hs, Hj.
Qed.

Lemma trimStart_blank (s : jsstring) :
  Forall (fun c => is_white_space c = true) s -> trimStart s = [].
Proof.
  induction 1 as [| c s Hc Hs IH]; [reflexivity |].
  cbn [trimStart]. now rewrite Hc.
Qed.

(** X7.  A timestamp that is an empty string, or a string of white space
    only, is normalized to 0, the epoch, and not to the current instant:
    [Number] converts such a string to 0. *)
Theorem normalizeTimestamp_blank (s : jsstring) (now : float) :
  Forall (fun c => is_white_space c = true) s ->
  normalizeTimestamp (WString s) now = 0%float.
Proof.
  intros H. unfold normalizeTimestamp, Number_of_string, trim.
  rewrite (trimStart_blank s H). reflexivity.
Qed.

Lemma normalizeTimestamp_blank_witness :
  normalizeTimestamp (WString (js "  ")) 1700000000000 = 0%float.
Proof.
  apply (normalizeTimestamp_blank (js "  ") 1700000000000).
  repeat constructor.
Defined.

(* ===================================================================== *)
(** * The page                                                             *)
(* ===================================================================== *)

(** X8.  With a snapshot held, the page is always the dashboard over that
    very snapshot, whatever the flags: it lists the models that are not
    official and the ranking, and carries the staleness banner exactly when
    the query is in error with a non-empty message.  Without a snapshot the
    page is the loading state while loading, else the blocking error state
    when in error, else the dashboard over the empty fallback. *)
Theorem App_screens (q : QueryResult HealthState) (now : float) :
  let message_of fallback :=
    match error q with
    | Some (ThrownError e) => message e
    | _ => fallback
    end in
  (forall d, data q = Some d ->
     exists banner,
       Basic.App q now
       = Basic.DashboardScreen (isFetching q) d
           (filter (fun model => negb (official model)) (model_reports d))
           (Basic.getTopContributors (top_contributors d))
           banner (Date_new (last_updated d))
       /\ (forall m, banner = Some m <->
             isError q = true /\ m <> [] /\ m = message_of (js "Unknown error"))
       /\ (forall model,
             In model (filter (fun model => negb (official model)) (model_reports d))
             <-> In model (model_reports d) /\ official model = false))
  /\ (data q = None -> isLoading q = true -> Basic.App q now = Basic.LoadingScreen)
  /\ (data q = None -> isLoading q = false -> isError q = true ->
      Basic.App q now = Basic.ErrorScreen (message_of (js "Failed to load the health state.")))
  /\ (data q = None -> isLoading q = false -> isError q = false ->
      exists fallback,
        Basic.App q now = Basic.DashboardScreen (isFetching q) fallback [] [] None (Date_new now)
        /\ update_period fallback = 60%float).
Proof.
  intros message_of. unfold Basic.App.
  split; [| split; [| split]].
  - intros d ->. eexists. split; [reflexivity |]. split.
    + intros m. subst message_of. cbv beta.
      destruct (isError q).
      * destruct (match error q with
                  | Some (ThrownError e) => message e
                  | _ => js "Unknown error"
                  end) as [| c msg].
        -- split; [discriminate |]. intros (_ & Hne & ->). contradiction.
        -- split.
           ++ intros H. injection H as <-. repeat split. discriminate.
           ++ intros (_ & _ & ->). reflexivity.
      * split; [discriminate |]. intros (H & _). discriminate.
    + intros model. rewrite filter_In, negb_true_iff. tauto.
  - intros -> ->. reflexivity.
  - intros -> -> ->. reflexivity.
  - intros -> -> ->. eexists. split; reflexivity.
Qed.

(* ===================================================================== *)
(** * The clock of the footer                                              *)
(* ===================================================================== *)

Lemma jsstring_eqb_eq (a b : jsstring) : jsstring_eqb a b = true -> a = b.
Proof.
  revert b. induction a as [| x a IH]; intros [| y b] H; try discriminate.
  - reflexivity.
  - cbn [jsstring_eqb] in H. apply andb_prop in H. destruct H as [Hx Ha].
    apply N.eqb_eq in Hx. subst y. f_equal. now apply IH.
Qed.

(** A number below 60, padded to two places, is its two decimal digits. *)
Lemma padStart_two_digits (n : Z) :
  0 <= n < 60 ->
  padStart (Z_toString n) 2 (js "0") = [digit (n / 10); digit (n mod 10)].
Proof.
  intros Hn. apply jsstring_eqb_eq.
  assert (Hall : forallb two_digits_ok (map Z.of_nat (seq 0 60)) = true)
    by (vm_compute; reflexivity).
  rewrite forallb_forall in Hall. apply (Hall n).
  apply in_map_iff. exists (Z.to_nat n). split; [lia |].
  apply in_seq. lia.
Qed.

(** X9.  The clock of a valid date is eight code units [HH:MM:SS]: the two
    digits of the hour below 24, of the minute and of the second below 60,
    of the time value taken modulo one day, so that it repeats every
    86,400,000 ms, also before the epoch; an invalid date reads
    "NaN:NaN:NaN". *)
Theorem formatUtcTime_shape (date : Date) :
  (forall t, date = Some t ->
     let h := (t / 3600000) mod 24 in
     let m := (t / 60000) mod 60 in
     let s := (t / 1000) mod 60 in
     0 <= h < 24 /\ 0 <= m < 60 /\ 0 <= s < 60
     /\ Basic.formatUtcTime date
        = [digit (h / 10); digit (h mod 10); 58%N;
           digit (m / 10); digit (m mod 10); 58%N;
           digit (s / 10); digit (s mod 10)]
     /\ Basic.formatUtcTime (Some (t + 86400000)) = Basic.formatUtcTime date)
  /\ (date = None -> Basic.formatUtcTime date = js "NaN:NaN:NaN")
  /\ (forall v, isFinite v = false -> Date_new v = None).
Proof.
  split; [| split].
  - intros t -> h m s.
    assert (Hh : 0 <= h < 24) by (apply Z.mod_pos_bound; lia).
    assert (Hm : 0 <= m < 60) by (apply Z.mod_pos_bound; lia).
    assert (Hs : 0 <= s < 60) by (apply Z.mod_pos_bound; lia).
    assert (Hshape : forall u,
              Basic.formatUtcTime (Some u)
              = padStart (Z_toString ((u / 3600000) mod 24)) 2 (js "0") ++ js ":"
                ++ padStart (Z_toString ((u / 60000) mod 60)) 2 (js "0") ++ js ":"
                ++ padStart (Z_toString ((u / 1000) mod 60)) 2 (js "0"))
      by reflexivity.
    repeat split; try lia.
    + rewrite Hshape. fold h m s.
      rewrite !padStart_two_digits by lia. reflexivity.
    + rewrite !Hshape.
      replace (t + 86400000) with (t + 24 * 3600000) at 1 by lia.
      replace (t + 86400000) with (t + 1440 * 60000) at 1 by lia.
      replace (t + 86400000) with (t + 86400 * 1000) by lia.
      rewrite !Z.div_add by lia.
      replace (t / 3600000 + 24) with (t / 3600000 + 1 * 24) by lia.
      replace (t / 60000 + 1440) with (t / 60000 + 24 * 60) by lia.
      replace (t / 1000 + 86400) with (t / 1000 + 1440 * 60) by lia.
      rewrite !Z_mod_plus_full. reflexivity.
  - intros ->. reflexivity.
  - intros v H. unfold Date_new. now rewrite H.
Qed.

(* ===================================================================== *)
(** * Precision                                                            *)
(* ===================================================================== *)

Lemma trimStart_head (s : jsstring) (c : code_unit) (r : jsstring) :
  trimStart s = c :: r -> is_white_space c = false.
Proof.
  induction s as [| x s IH]; [discriminate |].
  cbn [trimStart]. destruct (is_white_space x) eqn:E; [exact IH |].
  intros H. injection H as <- _. exact E.
Qed.

Lemma trimStart_nonws (c : code_unit) (s : jsstring) :
  is_white_space c = false -> trimStart (c :: s) = c :: s.
Proof. intros H. cbn [trimStart]. now rewrite H. Qed.

Lemma trimStart_app_nonws (l : jsstring) (c : code_unit) :
  is_white_space c = false -> trimStart (l ++ [c]) = trimStart l ++ [c].
Proof.
  intros H. induction l as [| x l IH].
  - now apply trimStart_nonws.
  - cbn [app trimStart]. destruct (is_white_space x); [exact IH | reflexivity].
Qed.

Lemma trimEnd_cons (c : code_unit) (s : jsstring) :
  is_white_space c = false -> trimEnd (c :: s) = c :: trimEnd s.
Proof.
  intros H. unfold trimEnd. cbn [rev].
  rewrite trimStart_app_nonws by exact H.
  rewrite rev_app_distr. reflexivity.
Qed.

Lemma trimEnd_last_nonws (s : jsstring) (c : code_unit) :
  is_white_space c = false -> trimEnd (s ++ [c]) = s ++ [c].
Proof.
  intros H. unfold trimEnd. rewrite rev_app_distr. cbn [rev app].
  rewrite trimStart_nonws by exact H.
  cbn [rev]. now rewrite rev_involutive.
Qed.

Lemma trimEnd_last_ws (s : jsstring) (c : code_unit) :
  is_white_space c = true -> trimEnd (s ++ [c]) = trimEnd s.
Proof.
  intros H. unfold trimEnd. rewrite rev_app_distr. cbn [rev app trimStart].
  now rewrite H.
Qed.

(** What [trim] returns neither begins nor ends with white space. *)
Lemma trim_ends (s : jsstring) :
  (forall c r, trim s = c :: r -> is_white_space c = false)
  /\ (forall r c, trim s = r ++ [c] -> is_white_space c = false).
Proof.
  unfold trim. split.
  - intros c r H. destruct (trimStart s) as [| x t] eqn:E.
    + discriminate H.
    + pose proof (trimStart_head s x t E) as Hx.
      rewrite trimEnd_cons in H by exact Hx. injection H as <- _. exact Hx.
  - intros r c H. unfold trimEnd in H.
    apply (f_equal (@rev _)) in H. rewrite rev_involutive, rev_app_distr in H.
    cbn [rev app] in H. exact (trimStart_head _ _ _ H).
Qed.

(** A string that begins and ends with something else than white space is
    left as it is. *)
Lemma trim_id (c c' : code_unit) (r r' : jsstring) :
  is_white_space c = false -> is_white_space c' = false ->
  c :: r = r' ++ [c'] -> trim (c :: r) = c :: r.
Proof.
  intros Hc Hc' E. unfold trim. rewrite trimStart_nonws by exact Hc.
  rewrite E. now apply trimEnd_last_nonws.
Qed.

Lemma replace_unfold (s pattern replacement : jsstring) :
  replace s pattern replacement
  = if startsWith s pattern then replacement ++ skipn (List.length pattern) s
    else match s with
         | [] => []
         | c :: s' => c :: replace s' pattern replacement
         end.
Proof. destruct s; reflexivity. Qed.

Lemma startsWith_app (p s : jsstring) : startsWith (p ++ s) p = true.
Proof.
  induction p as [| c p IH]; [reflexivity |].
  cbn [app startsWith]. now rewrite N.eqb_refl, IH.
Qed.

Lemma replace_prefix (p r s : jsstring) : replace (p ++ s) p r = r ++ s.
Proof.
  rewrite replace_unfold, startsWith_app. f_equal.
  induction p as [| c p IH]; [reflexivity | exact IH].
Qed.

Lemma jsstring_eqb_neq (a b : jsstring) : a <> b -> jsstring_eqb a b = false.
Proof.
  intros H. destruct (jsstring_eqb a b) eqn:E; [| reflexivity].
  apply jsstring_eqb_eq in E. contradiction.
Qed.

(** X10.  The precision cell never begins or ends with white space.  With
    no dtype it is the quantization in parentheses, or empty when there is
    no quantization either; a quantization of "none" counts as none.  A
    dtype "float..." written without white space is shortened to "f...",
    followed by a space and the quantization in parentheses when there is
    one. *)
Theorem renderPrecision_shape (info : ServerInfo) :
  let shown := Basic.renderPrecision info in
  let no_quant := absent_string (quant_type info) \/ quant_type info = value (js "none") in
  (forall c r, shown = c :: r -> is_white_space c = false)
  /\ (forall r c, shown = r ++ [c] -> is_white_space c = false)
  /\ (absent_string (torch_dtype info) -> no_quant -> shown = [])
  /\ (forall q, absent_string (torch_dtype info) ->
        quant_type info = value q -> q <> [] -> q <> js "none" ->
        shown = js "(" ++ q ++ js ")")
  /\ (forall rest, torch_dtype info = value (js "float" ++ rest) ->
        Forall (fun c => is_white_space c = false) rest -> no_quant ->
        shown = js "f" ++ rest)
  /\ (forall rest q, torch_dtype info = value (js "float" ++ rest) ->
        Forall (fun c => is_white_space c = false) rest ->
        quant_type info = value q -> q <> [] -> q <> js "none" ->
        shown = js "f" ++ rest ++ js " (" ++ q ++ js ")").
Proof.
  intros shown no_quant. subst shown no_quant. unfold absent_string.
  assert (Hquant_none :
            absent_string (quant_type info) \/ quant_type info = value (js "none") ->
            match quant_type info with
            | value ((_ :: _) as q) =>
              if negb (jsstring_eqb q (js "none")) then js "(" ++ q ++ js ")" else []
            | _ => []
            end = []).
  { unfold absent_string. intros [[-> | [-> | ->]] | ->]; reflexivity. }
  assert (Hquant_some : forall q,
            quant_type info = value q -> q <> [] -> q <> js "none" ->
            match quant_type info with
            | value ((_ :: _) as q) =>
              if negb (jsstring_eqb q (js "none")) then js "(" ++ q ++ js ")" else []
            | _ => []
            end = js "(" ++ q ++ js ")").
  { intros q -> Hne Hnone. destruct q as [| c q]; [contradiction |].
    now rewrite (jsstring_eqb_neq _ _ Hnone). }
  assert (Hdtype_none :
            absent_string (torch_dtype info) ->
            match torch_dtype info with
            | value ((_ :: _) as t) => replace t (js "float") (js "f")
            | _ => []
            end = []).
  { unfold absent_string. intros [-> | [-> | ->]]; reflexivity. }
  assert (Hdtype_float : forall rest,
            torch_dtype info = value (js "float" ++ rest) ->
            match torch_dtype info with
            | value ((_ :: _) as t) => replace t (js "float") (js "f")
            | _ => []
            end = js "f" ++ rest).
  { intros rest ->. change (js "float" ++ rest)
      with (102%N :: ([108; 111; 97; 116]%N ++ rest)).
    cbv iota. change (102%N :: ([108; 111; 97; 116]%N ++ rest))
      with (js "float" ++ rest).
    apply replace_prefix. }
  assert (Hparen : forall q, exists r', js "(" ++ q ++ js ")" = r' ++ [41%N]).
  { intros q. exists (js "(" ++ q). now rewrite <- app_assoc. }
  unfold Basic.renderPrecision.
  split; [apply trim_ends |]. split; [apply trim_ends |].
  split; [| split; [| split]].
  - intros Hd Hq. rewrite (Hdtype_none Hd), (Hquant_none Hq). reflexivity.
  - intros q Hd Hq Hne Hnone.
    rewrite (Hdtype_none Hd), (Hquant_some q Hq Hne Hnone).
    change ([] ++ js " " ++ js "(" ++ q ++ js ")")
      with (32%N :: 40%N :: q ++ js ")").
    unfold trim. cbn [trimStart].
    change (is_white_space 32%N) with true. change (is_white_space 40%N) with false.
    cbv iota.
    change (40%N :: q ++ js ")") with ((40%N :: q) ++ [41%N]).
    now apply trimEnd_last_nonws.
  - intros rest Hd Hrest Hq.
    rewrite (Hdtype_float rest Hd), (Hquant_none Hq), app_nil_r.
    unfold trim. change (js "f" ++ rest) with (102%N :: rest). cbn [app].
    rewrite trimStart_nonws by reflexivity.
    change (102%N :: rest ++ js " ") with ((102%N :: rest) ++ [32%N]).
    rewrite trimEnd_last_ws by reflexivity.
    destruct (exists_last (l := 102%N :: rest) ltac:(discriminate)) as (r' & c' & E).
    rewrite E. apply trimEnd_last_nonws.
    assert (Hall : Forall (fun c => is_white_space c = false) (102%N :: rest))
      by (constructor; [reflexivity | exact Hrest]).
    rewrite E in Hall. apply Forall_app in Hall. destruct Hall as [_ Hc'].
    now inversion Hc'.
  - intros rest q Hd Hrest Hq Hne Hnone.
    rewrite (Hdtype_float rest Hd), (Hquant_some q Hq Hne Hnone).
    destruct (Hparen q) as [r' Er'].
    replace ((js "f" ++ rest) ++ js " " ++ js "(" ++ q ++ js ")")
      with (102%N :: (rest ++ js " " ++ js "(" ++ q ++ js ")"))
      by (cbn [app js]; now rewrite <- app_assoc).
    rewrite (trim_id 102%N 41%N _ ((102%N :: rest ++ js " ") ++ js "(" ++ q));
      try reflexivity.
    all: cbn [app]; f_equal; rewrite <- ?app_assoc; reflexivity.
Qed.

(* ===================================================================== *)
(** * Adapters                                                             *)
(* ===================================================================== *)

Lemma combine_index_nth {A : Type} (items : list A) (s i : nat) (a : A) :
  nth_error items i = Some a ->
  nth_error (combine (map Z.of_nat (seq s (List.length items))) items) i
  = Some (Z.of_nat (s + i), a).
Proof.
  revert s i. induction items as [| x items IH]; intros s [| i] H;
    try discriminate.
  - injection H as <-. cbn [List.length seq map combine nth_error].
    now rewrite Nat.add_0_r.
  - cbn [List.length seq map combine nth_error] in *.
    rewrite (IH (S s) i H). do 2 f_equal. lia.
Qed.

Lemma combine_index_length {A : Type} (items : list A) (s : nat) :
  List.length (combine (map Z.of_nat (seq s (List.length items))) items)
  = List.length items.
Proof. rewrite length_combine, length_map, length_seq. lia. Qed.

(** X11.  No adapter gives nothing in the plain dashboard and a dash in the
    card-based one.  Otherwise there is one item per adapter, in order: a
    link to the registry path built from the full name, labelled with the
    short name, followed by a separator (a space, or a comma and a space on
    the cards) after every adapter but the last. *)
Theorem renderAdapters_structure (items : list AdapterInfo) :
  (items = [] ->
     Basic.renderAdapters items = RNull
     /\ Rich.renderAdapters items = Rich.muted (js "—"))
  /\ (items <> [] ->
      exists fs gs,
        Basic.renderAdapters items = RFragment fs
        /\ Rich.renderAdapters items = RFragment gs
        /\ List.length fs = List.length items
        /\ List.length gs = List.length items
        /\ forall i adapter, nth_error items i = Some adapter ->
             nth_error fs i
             = Some (RFragment
                 (RElement "a"
                    [prop "target" (js "_blank"); prop "rel" (js "noreferrer");
                     prop "href" (js "https://huggingface.co/" ++ name adapter)]
                    [RText (short_name adapter)]
                  :: (if (S i <? List.length items)%nat then [RText (js " ")] else [])))
             /\ exists link,
                  nth_error gs i
                  = Some (RFragment
                      (link :: (if (S i <? List.length items)%nat
                                then [RElement "span" [] [RText (js ", ")]] else [])))
                  /\ target_of link = Some (js "https://huggingface.co/" ++ name adapter)
                  /\ text_of link = short_name adapter).
Proof.
  split.
  - intros ->. split; reflexivity.
  - intros Hne. destruct items as [| x items']; [contradiction |]. clear Hne.
    set (items := x :: items').
    assert (Hsep : forall i,
              (Z.of_nat (0 + i) <? Z.of_nat (List.length items) - 1)
              = (S i <? List.length items)%nat).
    { intros i. destruct (Z.ltb_spec (Z.of_nat (0 + i)) (Z.of_nat (List.length items) - 1)),
        (Nat.ltb_spec (S i) (List.length items)); try reflexivity; lia. }
    unfold Basic.renderAdapters, Rich.renderAdapters. subst items. cbv iota.
    set (items := x :: items') in *.
    eexists. eexists. split; [reflexivity |]. split; [reflexivity |].
    split; [now rewrite length_map, combine_index_length |].
    split; [now rewrite length_map, combine_index_length |].
    intros i adapter Hi.
    rewrite !nth_error_map, (combine_index_nth items 0 i adapter Hi).
    cbn [option_map]. rewrite Hsep. split; [reflexivity |].
    eexists. split; [reflexivity |]. split; reflexivity.
Qed.

(* ===================================================================== *)
(** * From the fetch to the cadence                                        *)
(* ===================================================================== *)

(** X12.  After a successful fetch the refetch interval is decided by the
    update period of the payload alone: neither the timestamp on the wire
    nor the instant of the fetch has a part in it. *)
Theorem cadence_after_fetch (response : Response) (payload : HealthState_ wire)
    (now : float) (snapshot : HealthState) :
  fetchHealthState (fulfilled response) now = fulfilled snapshot ->
  json response = fulfilled payload ->
  isNaN (update_period payload) = false ->
  Basic.refetchInterval (Some snapshot)
  = (if (30000 <? update_period payload * 1000)%float
     then (update_period payload * 1000)%float else 30000%float)
  /\ (30000 <=? Basic.refetchInterval (Some snapshot))%float = true.
Proof.
  intros Hfetch Hjson Hnan.
  assert (Hperiod : update_period snapshot = update_period payload).
  { unfold fetchHealthState in Hfetch.
    destruct (negb (ok response)); [discriminate |].
    rewrite Hjson in Hfetch. injection Hfetch as <-. reflexivity. }
  assert (H1000 : Prim2SF 1000 = S754_finite false 8796093022208000 (-43))
    by reflexivity.
  assert (H30000 : Prim2SF 30000 = S754_finite false 8246337208320000 (-38))
    by reflexivity.
  unfold Basic.refetchInterval. rewrite Hperiod.
  apply (Math_max_floor _ 30000 _ _ _ H30000).
  exact (mul_finite_not_nan _ 1000 _ _ _ H1000 Hnan).
Qed.

Lemma cadence_after_fetch_witness :
  Basic.refetchInterval
    (Some {| bootstrap_states := []; top_contributors := [];
             model_reports := []; reachability_issues := [];
             last_updated := 1700000000000%float;
             update_period := 5%float; update_duration := 0%float |})
  = 30000%float.
Proof.
  exact (proj1 (cadence_after_fetch
    {| status := 200; text := fulfilled [];
       json := fulfilled
         {| bootstrap_states := []; top_contributors := [];
            model_reports := []; reachability_issues := [];
            last_updated := WNumber 1700000000%float;
            update_period := 5%float; update_duration := 0%float |} |}
    {| bootstrap_states := []; top_contributors := [];
       model_reports := []; reachability_issues := [];
       last_updated := WNumber 1700000000%float;
       update_period := 5%float; update_duration := 0%float |}
    0%float
    {| bootstrap_states := []; top_contributors := [];
       model_reports := []; reachability_issues := [];
       last_updated := 1700000000000%float;
       update_period := 5%float; update_duration := 0%float |}
    eq_refl eq_refl eq_refl)).
Defined.

(* ===================================================================== *)
(** * Timestamps sent as strings of digits                                 *)
(* ===================================================================== *)

Lemma is_digit_cases (c : code_unit) :
  is_digit c = true ->
  In c [48; 49; 50; 51; 52; 53; 54; 55; 56; 57]%N.
Proof.
  unfold is_digit. intros H. apply andb_prop in H as [H1 H2].
  apply N.leb_le in H1, H2. cbn [In].
  assert (c = 48 \/ c = 49 \/ c = 50 \/ c = 51 \/ c = 52 \/ c = 53 \/ c = 54
          \/ c = 55 \/ c = 56 \/ c = 57)%N as Hc by lia.
  intuition auto.
Qed.

Lemma is_digit_not_white_space (c : code_unit) :
  is_digit c = true -> is_white_space c = false.
Proof.
  intros H. apply is_digit_cases in H. cbn [In] in H.
  repeat (destruct H as [<- | H]; [reflexivity |]). contradiction.
Qed.

Lemma span_digits_all (ds : jsstring) :
  Forall (fun c => is_digit c = true) ds -> span_digits ds = (ds, []).
Proof.
  induction 1 as [| c ds Hc _ IH]; [reflexivity |].
  cbn [span_digits]. now rewrite Hc, IH.
Qed.

Lemma read_numeric_digits (ds : jsstring) :
  Forall (fun c => is_digit c = true) ds ->
  read_numeric ds = read_unsigned_decimal false ds.
Proof.
  intros H. destruct H as [| c0 rest Hc0 Hrest]; [reflexivity |].
  apply is_digit_cases in Hc0. cbn [In] in Hc0.
  destruct Hc0 as [<- | Hc0].
  - destruct Hrest as [| c t Hc _]; [reflexivity |].
    apply is_digit_cases in Hc. cbn [In] in Hc.
    repeat (destruct Hc as [<- | Hc]; [reflexivity |]). contradiction.
  - repeat (destruct Hc0 as [<- | Hc0]; [reflexivity |]). contradiction.
Qed.

Lemma digits_value_nonneg (ds : jsstring) :
  Forall (fun c => is_digit c = true) ds -> 0 <= digits_value ds.
Proof.
  unfold digits_value.
  assert (forall acc, 0 <= acc ->
            Forall (fun c => is_digit c = true) ds ->
            0 <= fold_left (fun acc c => 10 * acc + (Z.of_N c - 48)) ds acc)
    as Hgen.
  { induction ds as [| c ds IH]; intros acc Hacc Hds; [exact Hacc |].
    inversion Hds as [| ? ? Hc Hds']; subst. cbn [fold_left].
    apply IH; [| exact Hds'].
    unfold is_digit in Hc. apply andb_prop in Hc as [Hc _].
    apply N.leb_le in Hc. lia. }
  intros Hds. apply Hgen; [lia | exact Hds].
Qed.

(** [Number] applied to a string of decimal digits is the double nearest to
    the integer they write. *)
Lemma Number_of_string_digits (ds : jsstring) :
  ds <> [] -> Forall (fun c => is_digit c = true) ds ->
  Number_of_string ds = of_Z (digits_value ds).
Proof.
  intros Hne Hds.
  assert (Htrim : trim ds = ds).
  { destruct ds as [| c r]; [contradiction |].
    destruct (exists_last Hne) as (r' & c' & E).
    apply (trim_id c c' r r'); [| | exact E].
    - inversion Hds; subst. now apply is_digit_not_white_space.
    - apply is_digit_not_white_space.
      rewrite E in Hds. apply Forall_app in Hds as [_ Hlast].
      now inversion Hlast. }
  unfold Number_of_string. rewrite Htrim.
  destruct ds as [| c0 rest] eqn:Eds; [contradiction |]. rewrite <- Eds in *.
  replace (match ds with [] => zero | _ :: _ => read_numeric ds end)
    with (read_numeric ds) by (rewrite Eds; reflexivity).
  rewrite (read_numeric_digits ds Hds). unfold read_unsigned_decimal.
  assert (Hinf : jsstring_eqb ds (js "Infinity") = false).
  { apply jsstring_eqb_neq. intros E. rewrite E in Hds.
    inversion Hds as [| ? ? Hc _]. discriminate Hc. }
  rewrite Hinf, (span_digits_all ds Hds). cbv beta iota.
  rewrite app_nil_r.
  replace (read_exponent []) with (Some 0) by reflexivity.
  rewrite Eds at 1. cbv beta iota. rewrite <- Eds.
  replace (0 - Z.of_nat (List.length (@nil code_unit))) with 0 by reflexivity.
  pose proof (digits_value_nonneg ds Hds) as Hm.
  unfold of_decimal.
  destruct (Z.eqb_spec (digits_value ds) 0) as [-> | Hm0]; [reflexivity |].
  replace (400 <? 0) with false by reflexivity.
  replace (0 + Z.of_nat (List.length ds) <? -400) with false
    by (symmetry; apply Z.ltb_ge; lia).
  replace (0 <=? 0) with true by reflexivity.
  cbn [cond_Zopp]. now rewrite Z.pow_0_r, Z.mul_1_r.
Qed.

(** X13.  A timestamp sent as a non-empty string of decimal digits is
    normalised exactly as the same integer sent as a Number is. *)
Theorem normalizeTimestamp_digit_string (ds : jsstring) (now : float) :
  ds <> [] -> Forall (fun c => is_digit c = true) ds ->
  normalizeTimestamp (WString ds) now
  = normalizeTimestamp (WNumber (of_Z (digits_value ds))) now.
Proof.
  intros Hne Hds. unfold normalizeTimestamp.
  now rewrite (Number_of_string_digits ds Hne Hds).
Qed.

Lemma normalizeTimestamp_digit_string_witness :
  normalizeTimestamp (WString (js "1700000000")) 0%float
  = normalizeTimestamp (WNumber (of_Z 1700000000)) 0%float.
Proof.
  apply (normalizeTimestamp_digit_string (js "1700000000") 0%float).
  - discriminate.
  - repeat constructor.
Defined.

(* ===================================================================== *)
(** * Keys of the served-blocks cells                                      *)
(* ===================================================================== *)

Lemma NoDup_map_inj_in {A B : Type} (f : A -> B) (l : list A) :
  (forall x y, In x l -> In y l -> f x = f y -> x = y) ->
  NoDup l -> NoDup (map f l).
Proof.
  intros Hinj Hl. induction Hl as [| a l Ha Hl IH]; [constructor |].
  cbn [map]. constructor.
  - intros Hin. apply in_map_iff in Hin as (x & Hfx & Hx).
    apply Hinj in Hfx; [| now right | now left]. now subst.
  - apply IH. intros x y Hx Hy. apply Hinj; now right.
Qed.

Lemma Z_toString_inj (i j : Z) :
  0 <= i -> 0 <= j -> Z_toString i = Z_toString j -> i = j.
Proof.
  intros Hi Hj. unfold Z_toString.
  replace (i <? 0) with false by (symmetry; apply Z.ltb_ge; lia).
  replace (j <? 0) with false by (symmetry; apply Z.ltb_ge; lia).
  intros E. apply (f_equal digits_value) in E.
  destruct (decimal_spec i Hi) as [Ei _], (decimal_spec j Hj) as [Ej _].
  congruence.
Qed.

(** X14.  Every served-blocks cell of a row carries a key, no two cells of
    the row carry the same one, and the card dashboard keys its cells as the
    table dashboard does. *)
Theorem ServerRowItem_cells_keys (cn : list (option jsstring) -> jsstring)
    (row : ServerRow) (numBlocks : Z) :
  map key_of (Basic.ServerRowItem_cells row numBlocks)
  = Array_from numBlocks
      (fun idx => Some (peer_id row ++ js "-" ++ Z_toString idx))
  /\ NoDup (map key_of (Basic.ServerRowItem_cells row numBlocks))
  /\ map key_of (Rich.ServerRowItem_cells cn row numBlocks)
     = map key_of (Basic.ServerRowItem_cells row numBlocks).
Proof.
  assert (Hb : map key_of (Basic.ServerRowItem_cells row numBlocks)
               = Array_from numBlocks
                   (fun idx => Some (peer_id row ++ js "-" ++ Z_toString idx))).
  { unfold Basic.ServerRowItem_cells, Array_from. rewrite map_map.
    apply map_ext. reflexivity. }
  assert (Hr : map key_of (Rich.ServerRowItem_cells cn row numBlocks)
               = Array_from numBlocks
                   (fun idx => Some (peer_id row ++ js "-" ++ Z_toString idx))).
  { unfold Rich.ServerRowItem_cells, Array_from. rewrite map_map.
    apply map_ext. reflexivity. }
  split; [exact Hb | split; [| now rewrite Hr, Hb]].
  rewrite Hb. unfold Array_from.
  apply NoDup_map_inj_in; [| apply seq_NoDup].
  intros x y _ _ E. injection E as E.
  apply app_inv_head in E. injection E as E.
  apply Z_toString_inj in E; lia.
Qed.
